(** * gotterns/types/version: semantic versions

    A shallow embedding of [types/version/version.go]: the [Version]
    struct, [String], [Version], [Compare], [TryParse] and [Parse],
    together with the parts of the Go standard library the package calls
    ([errors], [strings], [strconv], [regexp], [fmt]'s [%d]).

    Go strings are byte sequences; they are modelled by [string], whose
    characters are the 8-bit [ascii].  [uint64] is modelled by [N] with the
    wrap-around of the arithmetic written out where the code relies on it;
    [int8] results of [Compare] are the integers [-1], [0], [1] in [Z]. *)

From Stdlib Require Import Bool List Arith NArith ZArith Lia.
From Stdlib Require Import Ascii String DecimalString DecimalN DecimalPos.
From Stdlib Require Import OrderedTypeEx.
Import ListNotations.

Local Open Scope string_scope.

(** ** Package [errors] *)

Module errors.

(** The error values the package can build: [errors.New] strings,
    [*strconv.NumError] and the two-element [errors.Join].  Go compares
    error values by identity; every value built by this program has its
    own text, so structural equality coincides with identity on them. *)
Inductive error : Type :=
| New (text : string)
| NumError (Func Num : string) (Err : error)
| Join (e1 e2 : error).

Fixpoint eqb (a b : error) : bool :=
  match a, b with
  | New s, New t => String.eqb s t
  | NumError f n e, NumError f' n' e' =>
      String.eqb f f' && String.eqb n n' && eqb e e'
  | Join a1 a2, Join b1 b2 => eqb a1 b1 && eqb a2 b2
  | _, _ => false
  end.

(** [errors.Is]: the error itself or anything it wraps
    ([NumError.Unwrap] gives [Err], a join unwraps to its members). *)
Fixpoint Is (err target : error) : bool :=
  eqb err target ||
  match err with
  | New _ => false
  | NumError _ _ e => Is e target
  | Join e1 e2 => Is e1 target || Is e2 target
  end.

End errors.

Abbreviation error := errors.error.

(** ** Package [strings] *)

Module strings.

(** [s[i:]] *)
Definition slice_from (i : nat) (s : string) : string :=
  substring i (String.length s - i) s.

Definition HasPrefix (s pre : string) : bool := String.prefix pre s.

Definition TrimPrefix (s pre : string) : string :=
  if HasPrefix s pre then slice_from (String.length pre) s else s.

(** Go's [<] and [>] on strings: byte-wise lexicographic order. *)
Definition lt (a b : string) : bool :=
  match String.compare a b with Lt => true | _ => false end.
Definition gt (a b : string) : bool :=
  match String.compare a b with Gt => true | _ => false end.

End strings.

(** ** Package [strconv] *)

Module strconv.

Definition ErrRange : error := errors.New "value out of range".
Definition ErrSyntax : error := errors.New "invalid syntax".

Definition maxUint64 : N := 18446744073709551615.
Definition wrap64 (n : N) : N := n mod 2 ^ 64.

Definition syntaxError (fn str : string) : error :=
  errors.NumError fn str ErrSyntax.
Definition rangeError (fn str : string) : error :=
  errors.NumError fn str ErrRange.

Definition is_digit (c : ascii) : bool :=
  (N_of_ascii "0" <=? N_of_ascii c)%N && (N_of_ascii c <=? N_of_ascii "9")%N.
Definition is_lower (c : ascii) : bool :=
  (N_of_ascii "a" <=? N_of_ascii c)%N && (N_of_ascii c <=? N_of_ascii "z")%N.
Definition is_upper (c : ascii) : bool :=
  (N_of_ascii "A" <=? N_of_ascii c)%N && (N_of_ascii c <=? N_of_ascii "Z")%N.

(** The digit a byte stands for in [ParseUint]'s loop, [None] for a byte
    that is neither a digit nor a letter. *)
Definition digit_of (c : ascii) : option N :=
  if is_digit c then Some (N_of_ascii c - N_of_ascii "0")%N
  else if is_lower c then Some (N_of_ascii c - N_of_ascii "a" + 10)%N
  else if is_upper c then Some (N_of_ascii c - N_of_ascii "A" + 10)%N
  else None.

(** The loop of [ParseUint(s, 10, 64)] over the bytes still to read;
    [s0] is the whole argument, [n] the accumulator. *)
Fixpoint ParseUint_loop (s0 s : string) (n : N) : N * option error :=
  match s with
  | EmptyString => (n, None)
  | String c rest =>
      match digit_of c with
      | None => (0%N, Some (syntaxError "ParseUint" s0))
      | Some d =>
          if (10 <=? d)%N then (0%N, Some (syntaxError "ParseUint" s0))
          else if (maxUint64 / 10 + 1 <=? n)%N then
            (maxUint64, Some (rangeError "ParseUint" s0))
          else
            let n10 := wrap64 (n * 10) in
            let n1 := wrap64 (n10 + d) in
            if (n1 <? n10)%N || (maxUint64 <? n1)%N then
              (maxUint64, Some (rangeError "ParseUint" s0))
            else ParseUint_loop s0 rest n1
      end
  end.

(** [strconv.ParseUint(s, 10, 64)] *)
Definition ParseUint (s : string) : N * option error :=
  match s with
  | EmptyString => (0%N, Some (syntaxError "ParseUint" s))
  | _ => ParseUint_loop s s 0
  end.

(** [strconv.FormatUint(n, 10)], which is what [fmt]'s [%d] prints for a
    [uint64]. *)
Definition FormatUint (n : N) : string :=
  NilEmpty.string_of_uint (N.to_uint n).

End strconv.

(** ** Package [regexp] *)

Module regexp.

(** The syntax tree of a pattern, after [regexp/syntax]; [x+] and [x?]
    are the derived forms [Plus] and [Quest] below. *)
Inductive regex : Type :=
| EmptyMatch
| Literal (c : ascii)
| CharClass (ranges : list (ascii * ascii))
| BeginText
| EndText
| Capture (index : nat) (r : regex)
| Star (r : regex)
| Concat (r1 r2 : regex)
| Alternate (r1 r2 : regex).

Definition Plus (r : regex) : regex := Concat r (Star r).
Definition Quest (r : regex) : regex := Alternate r EmptyMatch.

Definition in_range (c : ascii) (lohi : ascii * ascii) : bool :=
  (N_of_ascii (fst lohi) <=? N_of_ascii c)%N &&
  (N_of_ascii c <=? N_of_ascii (snd lohi))%N.

Definition in_class (ranges : list (ascii * ascii)) (c : ascii) : bool :=
  existsb (in_range c) ranges.

(** [caps[i] = v] *)
Fixpoint set_cap (i : nat) (v : string) (caps : list string) : list string :=
  match caps, i with
  | [], _ => []
  | _ :: t, O => v :: t
  | h :: t, S j => h :: set_cap j v t
  end.

(** The text consumed between the suffix [s] and its own suffix [s']. *)
Definition taken (s s' : string) : string :=
  substring 0 (String.length s - String.length s') s.

Definition cont : Type := string -> list string -> option (list string).

(** The loop of a repetition [x*]: [body] matches [x], [k] is what
    follows the repetition.  Greedy: another iteration is tried before
    leaving the loop, and an iteration counts only when it consumed
    something, so [fuel], the length of the text still to read on entry,
    is never exhausted before the text is. *)
Definition star_loop (body : string -> list string -> cont -> option (list string))
    (k : cont) : nat -> string -> list string -> option (list string) :=
  fix loop (fuel : nat) (s : string) (caps : list string) :=
    match fuel with
    | O => k s caps
    | S fuel' =>
        match body s caps
                (fun s' caps' =>
                   if Nat.ltb (String.length s') (String.length s)
                   then loop fuel' s' caps' else None) with
        | Some res => Some res
        | None => k s caps
        end
    end.

(** Leftmost-first (Perl-like) matching, as Go's [regexp] does it: the
    first alternative and the longest repetition are tried first, and the
    first way to reach the end of the pattern wins.  [n] is the length of
    the whole text, [s] the text still to read, [caps] the submatches
    recorded so far and [k] the rest of the pattern. *)
Fixpoint backtrack (n : nat) (r : regex) (s : string) (caps : list string)
    (k : cont) {struct r} : option (list string) :=
  match r with
  | EmptyMatch => k s caps
  | Literal c =>
      match s with
      | String a s' => if Ascii.eqb a c then k s' caps else None
      | EmptyString => None
      end
  | CharClass ranges =>
      match s with
      | String a s' => if in_class ranges a then k s' caps else None
      | EmptyString => None
      end
  | BeginText => if Nat.eqb (String.length s) n then k s caps else None
  | EndText =>
      match s with
      | EmptyString => k s caps
      | String _ _ => None
      end
  | Capture i r' =>
      backtrack n r' s caps
        (fun s' caps' => k s' (set_cap i (taken s s') caps'))
  | Concat r1 r2 =>
      backtrack n r1 s caps (fun s' caps' => backtrack n r2 s' caps' k)
  | Alternate r1 r2 =>
      match backtrack n r1 s caps k with
      | Some res => Some res
      | None => backtrack n r2 s caps k
      end
  | Star r' => star_loop (backtrack n r') k (String.length s) s caps
  end.

Fixpoint num_cap (r : regex) : nat :=
  match r with
  | Capture i r' => Nat.max i (num_cap r')
  | Star r' => num_cap r'
  | Concat r1 r2 | Alternate r1 r2 => Nat.max (num_cap r1) (num_cap r2)
  | _ => 0
  end.

(** The unanchored search: the leftmost start position that matches. *)
Fixpoint search (n : nat) (r : regex) (s : string) : option (list string) :=
  match backtrack n r s (repeat "" (S (num_cap r)))
          (fun s' caps => Some (set_cap 0 (taken s s') caps)) with
  | Some res => Some res
  | None =>
      match s with
      | EmptyString => None
      | String _ s' => search n r s'
      end
  end.

Definition MatchString (r : regex) (s : string) : bool :=
  match search (String.length s) r s with Some _ => true | None => false end.

(** [nil] when there is no match, else the match and its submatches. *)
Definition FindStringSubmatch (r : regex) (s : string) : list string :=
  match search (String.length s) r s with Some caps => caps | None => [] end.

End regexp.

Import regexp.

(** ** Package [version] *)

Definition digit : regex := CharClass [("0", "9")]%char.
Definition nonzero : regex := CharClass [("1", "9")]%char.
Definition letter_or_hyphen : regex :=
  CharClass [("a", "z"); ("A", "Z"); ("-", "-")]%char.
Definition alnum_or_hyphen : regex :=
  CharClass [("0", "9"); ("a", "z"); ("A", "Z"); ("-", "-")]%char.

(** [0|[1-9]\d*] *)
Definition numeric : regex :=
  Alternate (Literal "0") (Concat nonzero (Star digit)).

(** [0|[1-9]\d*|\d*[a-zA-Z-][0-9a-zA-Z-]*] *)
Definition prerelease_ident : regex :=
  Alternate (Literal "0")
    (Alternate (Concat nonzero (Star digit))
       (Concat (Star digit) (Concat letter_or_hyphen (Star alnum_or_hyphen)))).

(** [[0-9a-zA-Z-]+] *)
Definition build_ident : regex := Plus alnum_or_hyphen.

(** [ident(?:\.ident)*] *)
Definition dotted (ident : regex) : regex :=
  Concat ident (Star (Concat (Literal ".") ident)).

(** The source text of the pattern compiled into [re]. *)
Definition re_pattern : string :=
  "^(0|[1-9]\d*)\.(0|[1-9]\d*)\.(0|[1-9]\d*)(?:-((?:0|[1-9]\d*|\d*[a-zA-Z-][0-9a-zA-Z-]*)(?:\.(?:0|[1-9]\d*|\d*[a-zA-Z-][0-9a-zA-Z-]*))*))?(?:\+([0-9a-zA-Z-]+(?:\.[0-9a-zA-Z-]+)*))?$".

(** [var re = regexp.MustCompile(...)]: the syntax tree of [re_pattern];
    the groups [(?:...)] do not capture, the others are numbered from 1 in
    the order of their opening parenthesis. *)
Definition re : regex :=
  Concat BeginText
  (Concat (Capture 1 numeric)
  (Concat (Literal ".")
  (Concat (Capture 2 numeric)
  (Concat (Literal ".")
  (Concat (Capture 3 numeric)
  (Concat (Quest (Concat (Literal "-") (Capture 4 (dotted prerelease_ident))))
  (Concat (Quest (Concat (Literal "+") (Capture 5 (dotted build_ident))))
          EndText))))))).

Definition ErrBase : error := errors.New "version error".
Definition ErrEmpty : error := errors.Join ErrBase (errors.New "empty input").
Definition ErrInvalidFormat : error :=
  errors.Join ErrBase (errors.New "invalid format").

Record Version : Type := mkVersion {
  Major : N;
  Minor : N;
  Patch : N;
  PreRelease : string;
  Build : string
}.

(** [Version{}] *)
Definition zeroVersion : Version := mkVersion 0 0 0 "" "".

(** [func (v Version) String() string]; the name [String] is taken by the
    constructor of [string]. *)
Definition String_ (v : Version) : string :=
  let version :=
    strconv.FormatUint (Major v) ++ "." ++ strconv.FormatUint (Minor v)
      ++ "." ++ strconv.FormatUint (Patch v) in
  let version :=
    if negb (String.eqb (PreRelease v) "") then version ++ "-" ++ PreRelease v
    else version in
  let version :=
    if negb (String.eqb (Build v) "") then version ++ "+" ++ Build v
    else version in
  version.

(** [func (v Version) Version() string]; the name [Version] is taken by
    the record. *)
Definition Version_ (v : Version) : string := "v" ++ String_ v.

(** [func (v Version) Compare(other Version) int8] *)
Definition Compare (v other : Version) : Z :=
  if negb (Major v =? Major other)%N then
    if (Major other <? Major v)%N then 1%Z else (-1)%Z
  else if negb (Minor v =? Minor other)%N then
    if (Minor other <? Minor v)%N then 1%Z else (-1)%Z
  else if negb (Patch v =? Patch other)%N then
    if (Patch other <? Patch v)%N then 1%Z else (-1)%Z
  else if String.eqb (PreRelease v) "" && negb (String.eqb (PreRelease other) "")
  then 1%Z
  else if negb (String.eqb (PreRelease v) "") && String.eqb (PreRelease other) ""
  then (-1)%Z
  else if negb (String.eqb (PreRelease v) "")
          && negb (String.eqb (PreRelease other) "")
  then
    if strings.gt (PreRelease v) (PreRelease other) then 1%Z
    else if strings.lt (PreRelease v) (PreRelease other) then (-1)%Z
    else 0%Z
  else 0%Z.

(** [func TryParse(input string) (Version, error)]; a [nil] error is
    [None]. *)
Definition TryParse (input : string) : Version * option error :=
  if String.eqb input "" then (zeroVersion, Some ErrEmpty)
  else
    let version := strings.TrimPrefix input "v" in
    if negb (MatchString re version) then (zeroVersion, Some ErrInvalidFormat)
    else
      let matches := FindStringSubmatch re version in
      if (List.length matches <? 6)%nat then (zeroVersion, Some ErrInvalidFormat)
      else
        match strconv.ParseUint (nth 1 matches "") with
        | (_, Some err) => (zeroVersion, Some (errors.Join ErrBase err))
        | (major, None) =>
            match strconv.ParseUint (nth 2 matches "") with
            | (_, Some err) => (zeroVersion, Some (errors.Join ErrBase err))
            | (minor, None) =>
                match strconv.ParseUint (nth 3 matches "") with
                | (_, Some err) =>
                    (zeroVersion, Some (errors.Join ErrBase err))
                | (patch, None) =>
                    (mkVersion major minor patch
                       (nth 4 matches "") (nth 5 matches ""), None)
                end
            end
        end.

(** The outcome of a call that may panic. *)
Inductive outcome (A : Type) : Type :=
| Returns (a : A)
| Panics (e : error).
Arguments Returns {A} a.
Arguments Panics {A} e.

(** [func Parse(input string) Version] *)
Definition Parse (input : string) : outcome Version :=
  match TryParse input with
  | (_, Some err) => Panics err
  | (version, None) => Returns version
  end.

(** ** What a pattern denotes

    [matches n r s s' caps caps']: the pattern [r] can read the text between
    [s] and its suffix [s'] (of a whole text of length [n]), taking the
    recorded submatches from [caps] to [caps'].  This is the declarative
    reading of a pattern that [backtrack] searches in priority order. *)

Inductive matches (n : nat) :
  regex -> string -> string -> list string -> list string -> Prop :=
| m_empty s c : matches n EmptyMatch s s c c
| m_literal a s c : matches n (Literal a) (String a s) s c c
| m_class rs a s c :
    in_class rs a = true -> matches n (CharClass rs) (String a s) s c c
| m_begin s c : String.length s = n -> matches n BeginText s s c c
| m_end c : matches n EndText "" "" c c
| m_capture i r s s' c c' :
    matches n r s s' c c' ->
    matches n (Capture i r) s s' c (set_cap i (taken s s') c')
| m_star_stop r s c : matches n (Star r) s s c c
| m_star_step r s s1 s2 c c1 c2 :
    matches n r s s1 c c1 ->
    String.length s1 < String.length s ->
    matches n (Star r) s1 s2 c1 c2 ->
    matches n (Star r) s s2 c c2
| m_concat r1 r2 s s1 s2 c c1 c2 :
    matches n r1 s s1 c c1 ->
    matches n r2 s1 s2 c1 c2 ->
    matches n (Concat r1 r2) s s2 c c2
| m_alt_l r1 r2 s s' c c' :
    matches n r1 s s' c c' -> matches n (Alternate r1 r2) s s' c c'
| m_alt_r r1 r2 s s' c c' :
    matches n r2 s s' c c' -> matches n (Alternate r1 r2) s s' c c'.

(** A pattern without capture groups. *)
Fixpoint no_capture (r : regex) : bool :=
  match r with
  | Capture _ _ => false
  | Star r' => no_capture r'
  | Concat r1 r2 | Alternate r1 r2 => no_capture r1 && no_capture r2
  | _ => true
  end.

(** A pattern every match of which reads at least one byte. *)
Fixpoint consuming (r : regex) : bool :=
  match r with
  | Literal _ | CharClass _ => true
  | Capture _ r' => consuming r'
  | Concat r1 r2 => consuming r1 || consuming r2
  | Alternate r1 r2 => consuming r1 && consuming r2
  | _ => false
  end.

(** Every repetition in the pattern has a consuming body. *)
Fixpoint stars_consuming (r : regex) : bool :=
  match r with
  | Capture _ r' => stars_consuming r'
  | Star r' => consuming r' && stars_consuming r'
  | Concat r1 r2 | Alternate r1 r2 => stars_consuming r1 && stars_consuming r2
  | _ => true
  end.

(** ** The grammar in words

    [MAJOR.MINOR.PATCH[-PRERELEASE][+BUILD]] as the SemVer 2.0.0 text
    describes it, stated on the text itself and independently of [re]. *)

Fixpoint all_chars (f : ascii -> bool) (s : string) : bool :=
  match s with
  | EmptyString => true
  | String c s' => f c && all_chars f s'
  end.

Definition all_digits : string -> bool := all_chars strconv.is_digit.

Definition is_alnum_hyphen (c : ascii) : bool :=
  strconv.is_digit c || strconv.is_lower c || strconv.is_upper c
  || Ascii.eqb c "-".

(** [0], or digits that do not start with [0]. *)
Definition numeric_text (s : string) : bool :=
  match s with
  | EmptyString => false
  | String c s' =>
      if Ascii.eqb c "0" then String.eqb s' ""
      else strconv.is_digit c && all_digits s'
  end.

(** A numeric identifier, or letters, digits and hyphens with at least one
    that is not a digit. *)
Definition prerelease_ident_text (s : string) : bool :=
  numeric_text s || (all_chars is_alnum_hyphen s && negb (all_digits s)).

(** Letters, digits and hyphens, at least one. *)
Definition build_ident_text (s : string) : bool :=
  negb (String.eqb s "") && all_chars is_alnum_hyphen s.

(** One or more identifiers separated by dots. *)
Definition dotted_text (ident : string -> bool) (s : string) : Prop :=
  exists ids, ids <> [] /\ forallb ident ids = true /\ s = String.concat "." ids.

(** The text [TryParse] takes apart: the three numbers, an optional
    pre-release after [-] and an optional build after [+]; an absent
    part is the empty string. *)
Definition assemble (major minor patch pre build : string) : string :=
  major ++ "." ++ minor ++ "." ++ patch
    ++ (if String.eqb pre "" then "" else "-" ++ pre)
    ++ (if String.eqb build "" then "" else "+" ++ build).

Definition semver_parts (s major minor patch pre build : string) : Prop :=
  s = assemble major minor patch pre build /\
  numeric_text major = true /\
  numeric_text minor = true /\
  numeric_text patch = true /\
  (pre = "" \/ dotted_text prerelease_ident_text pre) /\
  (build = "" \/ dotted_text build_ident_text build).

Definition semver_text (s : string) : Prop :=
  exists major minor patch pre build,
    semver_parts s major minor patch pre build.

(** The input with its white space removed at both ends, as the
    specification words the emptiness check ("the trimmed input");
    [TryParse] itself calls no such function. *)
Definition is_space (c : ascii) : bool :=
  Ascii.eqb c " " || Ascii.eqb c "009" || Ascii.eqb c "010"
  || Ascii.eqb c "011" || Ascii.eqb c "012" || Ascii.eqb c "013".

Fixpoint trim_left (s : string) : string :=
  match s with
  | EmptyString => ""
  | String c s' => if is_space c then trim_left s' else s
  end.

Fixpoint trim_right (s : string) : string :=
  match s with
  | EmptyString => ""
  | String c s' =>
      let t := trim_right s' in
      if is_space c && String.eqb t "" then "" else String c t
  end.

Definition spec_trimmed (s : string) : string := trim_right (trim_left s).

(** The bytes of a dotted sequence of identifiers. *)
Definition is_ident_or_dot (c : ascii) : bool :=
  is_alnum_hyphen c || Ascii.eqb c ".".

(** The text [r] is empty or starts outside [f]. *)
Definition stops (f : ascii -> bool) (r : string) : Prop :=
  match r with
  | EmptyString => True
  | String x _ => f x = false
  end.

(** The number a sequence of decimal digits denotes, read from the left
    with [acc] the value of the digits already read. *)
Fixpoint decimal_from (acc : N) (s : string) : N :=
  match s with
  | EmptyString => acc
  | String c s' => decimal_from (acc * 10 + (N_of_ascii c - N_of_ascii "0")) s'
  end.

Definition decimal (s : string) : N := decimal_from 0 s.

(** ** The order [Compare] computes

    Three-way comparisons, the lexicographic product of two of them, and
    the comparison of versions as the product of the comparisons of
    their first four fields. *)

Definition sign (c : comparison) : Z :=
  match c with Eq => 0%Z | Lt => (-1)%Z | Gt => 1%Z end.

Definition lex (c d : comparison) : comparison :=
  match c with Eq => d | _ => c end.

Definition lexc {A B : Type} (ca : A -> A -> comparison)
    (cb : B -> B -> comparison) (x y : A * B) : comparison :=
  lex (ca (fst x) (fst y)) (cb (snd x) (snd y)).

(** No pre-release is above every pre-release; two pre-releases compare
    as byte strings. *)
Definition pre_compare (p q : string) : comparison :=
  match String.eqb p "", String.eqb q "" with
  | true, true => Eq
  | true, false => Gt
  | false, true => Lt
  | false, false => String.compare p q
  end.

Definition key (v : Version) : N * (N * (N * string)) :=
  (Major v, (Minor v, (Patch v, PreRelease v))).

Definition key_compare : N * (N * (N * string)) -> N * (N * (N * string)) -> comparison :=
  lexc N.compare (lexc N.compare (lexc N.compare pre_compare)).

(** A three-way comparison that is a total order. *)
Class TotalCompare {A : Type} (cmp : A -> A -> comparison) : Prop := {
  cmp_refl : forall x, cmp x x = Eq;
  cmp_eq : forall x y, cmp x y = Eq -> x = y;
  cmp_antisym : forall x y, cmp x y = CompOpp (cmp y x);
  cmp_trans : forall x y z, cmp x y = Gt -> cmp y z = Gt -> cmp x z = Gt
}.

(** ** Versions the parser can produce *)

(** The bytes a text of the grammar is made of. *)
Definition is_semver_byte (c : ascii) : bool :=
  is_ident_or_dot c || Ascii.eqb c "+".

(** A [Version] in the image of [TryParse]: the numbers fit [uint64], the
    pre-release is absent or a dotted sequence of pre-release identifiers,
    the build is absent or a dotted sequence of build identifiers. *)
Definition valid_Version (v : Version) : Prop :=
  (Major v <= strconv.maxUint64)%N /\
  (Minor v <= strconv.maxUint64)%N /\
  (Patch v <= strconv.maxUint64)%N /\
  (PreRelease v = "" \/ dotted_text prerelease_ident_text (PreRelease v)) /\
  (Build v = "" \/ dotted_text build_ident_text (Build v)).

(** * Properties *)

(** ** Strings *)

Section StringFacts.

Lemma append_nil_r (s : string) : s ++ "" = s.
Proof. induction s as [|a s IH]; simpl; [reflexivity | now rewrite IH]. Qed.

Lemma append_assoc (a b c : string) : (a ++ b) ++ c = a ++ b ++ c.
Proof. induction a as [|x a IH]; simpl; [reflexivity | now rewrite IH]. Qed.

Lemma length_append (a b : string) :
  String.length (a ++ b) = String.length a + String.length b.
Proof. induction a as [|x a IH]; simpl; [reflexivity | now rewrite IH]. Qed.

Lemma substring_0_append (p s : string) :
  substring 0 (String.length p) (p ++ s) = p.
Proof.
  induction p as [|x p IH]; simpl.
  - destruct s; reflexivity.
  - now rewrite IH.
Qed.

Lemma taken_append (p s : string) : taken (p ++ s) s = p.
Proof.
  unfold taken. rewrite length_append.
  replace (String.length p + String.length s - String.length s)
    with (String.length p) by lia.
  apply substring_0_append.
Qed.

Lemma taken_all (s : string) : taken s "" = s.
Proof.
  rewrite <- (append_nil_r s) at 1. apply taken_append.
Qed.

Lemma substring_all (s : string) : substring 0 (String.length s) s = s.
Proof.
  rewrite <- (append_nil_r s) at 2. apply substring_0_append.
Qed.

Lemma append_inv_head (p a b : string) : p ++ a = p ++ b -> a = b.
Proof.
  induction p as [|x p IH]; simpl; intros H; [exact H|].
  injection H as H. now apply IH.
Qed.

Lemma append_eq_nil (a b : string) : a ++ b = "" -> a = "" /\ b = "".
Proof. destruct a; simpl; [auto | discriminate]. Qed.

(** A suffix as long as the text is the text. *)
Lemma append_same_length (p s : string) :
  String.length (p ++ s) = String.length s -> p = "".
Proof.
  rewrite length_append. destruct p; simpl; [reflexivity | lia].
Qed.

End StringFacts.

(** [strings.TrimPrefix] with the prefix ["v"]. *)
Lemma TrimPrefix_v_cons (s : string) : strings.TrimPrefix (String "v" s) "v" = s.
Proof.
  unfold strings.TrimPrefix, strings.HasPrefix, strings.slice_from. simpl.
  destruct s as [|a s]; simpl; [reflexivity|].
  f_equal. apply substring_all.
Qed.

Lemma TrimPrefix_v_other (c : ascii) (s : string) :
  c <> "v"%char -> strings.TrimPrefix (String c s) "v" = String c s.
Proof.
  intros Hc. unfold strings.TrimPrefix, strings.HasPrefix.
  cbn [String.prefix].
  destruct (ascii_dec "v" c) as [E|E]; [congruence | reflexivity].
Qed.

Lemma TrimPrefix_v_nil : strings.TrimPrefix "" "v" = "".
Proof. reflexivity. Qed.

(** ** The matcher and what a pattern denotes *)

Section MatcherFacts.

Variable n : nat.

(** What is read is a prefix of the text. *)
Lemma matches_suffix r s s' c c' :
  matches n r s s' c c' -> exists p, s = p ++ s'.
Proof.
  induction 1 as
    [s c | a s c | rs a s c Hin | s c Hlen | c
    | i r s s' c c' _ IH | r s c
    | r s s1 s2 c c1 c2 _ IH1 _ _ IH2
    | r1 r2 s s1 s2 c c1 c2 _ IH1 _ IH2
    | r1 r2 s s' c c' _ IH | r1 r2 s s' c c' _ IH];
    try (exists ""; reflexivity);
    try (exists (String a ""); reflexivity);
    try exact IH.
  - destruct IH1 as [p1 ->], IH2 as [p2 ->].
    exists (p1 ++ p2). now rewrite append_assoc.
  - destruct IH1 as [p1 ->], IH2 as [p2 ->].
    exists (p1 ++ p2). now rewrite append_assoc.
Qed.

(** Without capture groups the submatches are left as they were. *)
Lemma matches_no_capture r s s' c c' :
  matches n r s s' c c' -> no_capture r = true -> c' = c.
Proof.
  induction 1; simpl; intros Hnc; try reflexivity; try discriminate;
    try (apply andb_prop in Hnc as [Hn1 Hn2]); auto.
  - rewrite IHmatches2 by assumption. auto.
  - rewrite IHmatches2 by assumption. auto.
Qed.

(** A consuming pattern reads at least one byte. *)
Lemma matches_consuming r s s' c c' :
  matches n r s s' c c' -> consuming r = true ->
  String.length s' < String.length s.
Proof.
  induction 1; simpl; intros Hc; try discriminate; auto.
  - pose proof (matches_suffix _ _ _ _ _ H) as [p1 ->].
    pose proof (matches_suffix _ _ _ _ _ H0) as [p2 ->].
    apply orb_prop in Hc as [Hc|Hc].
    + specialize (IHmatches1 Hc). rewrite !length_append in *. lia.
    + specialize (IHmatches2 Hc). rewrite !length_append in *. lia.
  - apply andb_prop in Hc as [Hc _]. auto.
  - apply andb_prop in Hc as [_ Hc]. auto.
Qed.

(** Soundness of the loop of a repetition, for a sound body. *)
Lemma star_loop_sound r body k res :
  (forall s c k' res',
      body s c k' = Some res' ->
      exists s' c', matches n r s s' c c' /\ k' s' c' = Some res') ->
  forall fuel s c,
    star_loop body k fuel s c = Some res ->
    exists s' c', matches n (Star r) s s' c c' /\ k s' c' = Some res.
Proof.
  intros Hbody. induction fuel as [|fuel IH]; intros s c H; simpl in H.
  - exists s, c. split; [constructor | exact H].
  - destruct (body s c _) as [res0|] eqn:Hb.
    + injection H as ->.
      apply Hbody in Hb as (s1 & c1 & Hm & Hk).
      destruct (Nat.ltb_spec (String.length s1) (String.length s)) as [Hlt|];
        [|discriminate].
      apply IH in Hk as (s2 & c2 & Hstar & Hk).
      exists s2, c2. split; [|exact Hk].
      eapply m_star_step; eassumption.
    + exists s, c. split; [constructor | exact H].
Qed.

(** Soundness: a result of [backtrack] comes from a match of the pattern
    followed by a successful continuation. *)
Lemma backtrack_sound r : forall s c k res,
  backtrack n r s c k = Some res ->
  exists s' c', matches n r s s' c c' /\ k s' c' = Some res.
Proof.
  induction r as [|a|rs| | |i r IH|r IH|r1 IH1 r2 IH2|r1 IH1 r2 IH2];
    intros s c k res H; simpl in H.
  - exists s, c. split; [constructor | exact H].
  - destruct s as [|b s]; [discriminate|].
    destruct (Ascii.eqb_spec b a) as [->|]; [|discriminate].
    exists s, c. split; [constructor | exact H].
  - destruct s as [|b s]; [discriminate|].
    destruct (in_class rs b) eqn:Hin; [|discriminate].
    exists s, c. split; [now constructor | exact H].
  - destruct (Nat.eqb_spec (String.length s) n) as [Hl|]; [|discriminate].
    exists s, c. split; [now constructor | exact H].
  - destruct s; [|discriminate].
    exists "", c. split; [constructor | exact H].
  - apply IH in H as (s' & c' & Hm & Hk).
    exists s', (set_cap i (taken s s') c'). split; [now constructor | exact Hk].
  - eapply star_loop_sound; [|exact H]. intros; now apply IH.
  - apply IH1 in H as (s1 & c1 & Hm1 & Hk).
    apply IH2 in Hk as (s2 & c2 & Hm2 & Hk).
    exists s2, c2. split; [|exact Hk]. econstructor; eassumption.
  - destruct (backtrack n r1 s c k) as [res1|] eqn:H1.
    + injection H as ->. apply IH1 in H1 as (s' & c' & Hm & Hk).
      exists s', c'. split; [now apply m_alt_l | exact Hk].
    + apply IH2 in H as (s' & c' & Hm & Hk).
      exists s', c'. split; [now apply m_alt_r | exact Hk].
Qed.

(** Completeness of the loop of a repetition, for a complete body: with
    fuel for every byte still to read, a match of the repetition followed
    by a successful continuation is not missed. *)
Lemma star_loop_complete r body k :
  (forall s s' c c' k',
      matches n r s s' c c' -> k' s' c' <> None -> body s c k' <> None) ->
  forall s s' c c',
    matches n (Star r) s s' c c' ->
    k s' c' <> None ->
    forall fuel, String.length s <= fuel ->
    star_loop body k fuel s c <> None.
Proof.
  intros Hbody s s' c c' Hm.
  remember (Star r) as sr eqn:Esr.
  induction Hm as
    [| | | | | |r0 s c
    |r0 s s1 s2 c c1 c2 Hm1 _ Hlt Hm2 IH2| | |];
    try discriminate; injection Esr as ->; intros Hk fuel Hfuel.
  - destruct fuel as [|fuel]; simpl; [exact Hk|].
    destruct (body s c _); [discriminate | exact Hk].
  - destruct fuel as [|fuel]; [lia|]. simpl.
    destruct (body s c _) as [res|] eqn:Hb; [discriminate|].
    exfalso. revert Hb. apply (Hbody _ _ _ _ _ Hm1).
    destruct (Nat.ltb_spec (String.length s1) (String.length s)); [|lia].
    apply IH2; [reflexivity | exact Hk | lia].
Qed.

(** Completeness: [backtrack] finds a result whenever some match of the
    pattern is followed by a successful continuation. *)
Lemma backtrack_complete r : forall s s' c c' k,
  matches n r s s' c c' -> k s' c' <> None -> backtrack n r s c k <> None.
Proof.
  induction r as [|a|rs| | |i r IH|r IH|r1 IH1 r2 IH2|r1 IH1 r2 IH2];
    intros s s' c c' k Hm Hk; simpl.
  - inversion Hm; subst. exact Hk.
  - inversion Hm; subst. now rewrite Ascii.eqb_refl.
  - inversion Hm; subst. match goal with H : in_class _ _ = true |- _ => now rewrite H end.
  - inversion Hm; subst. now rewrite Nat.eqb_refl.
  - inversion Hm; subst. exact Hk.
  - inversion Hm; subst. eapply IH; [eassumption|]. exact Hk.
  - eapply star_loop_complete; [| exact Hm | exact Hk | apply Nat.le_refl].
    intros; eapply IH; eassumption.
  - inversion Hm; subst.
    eapply IH1; [eassumption|]. eapply IH2; eassumption.
  - inversion Hm; subst.
    + destruct (backtrack n r1 s c k) eqn:E; [discriminate|].
      exfalso. revert E. eapply IH1; eassumption.
    + destruct (backtrack n r1 s c k) eqn:E; [discriminate|].
      eapply IH2; eassumption.
Qed.

End MatcherFacts.

(** No repetition of [re] can iterate without reading a byte, so the test
    for progress in [star_loop] never cuts a match of [re] short. *)
Lemma re_stars_consuming : stars_consuming re = true.
Proof. reflexivity. Qed.

(** ** Character classes of [re] *)

Section ClassFacts.

Lemma in_class_digit c : in_class [("0", "9")]%char c = strconv.is_digit c.
Proof. unfold in_class, in_range, strconv.is_digit. simpl. apply orb_false_r. Qed.

Lemma in_class_alnum c :
  in_class [("0", "9"); ("a", "z"); ("A", "Z"); ("-", "-")]%char c
  = is_alnum_hyphen c.
Proof.
  destruct c as [[] [] [] [] [] [] [] []]; reflexivity.
Qed.

Lemma in_class_nonzero c :
  in_class [("1", "9")]%char c = strconv.is_digit c && negb (Ascii.eqb c "0").
Proof.
  destruct c as [[] [] [] [] [] [] [] []]; reflexivity.
Qed.

Lemma in_class_letter c :
  in_class [("a", "z"); ("A", "Z"); ("-", "-")]%char c
  = is_alnum_hyphen c && negb (strconv.is_digit c).
Proof.
  destruct c as [[] [] [] [] [] [] [] []]; reflexivity.
Qed.

Lemma all_digits_cons c s :
  all_digits (String c s) = strconv.is_digit c && all_digits s.
Proof. reflexivity. Qed.

Lemma digit_is_alnum c : strconv.is_digit c = true -> is_alnum_hyphen c = true.
Proof. unfold is_alnum_hyphen. now intros ->. Qed.

Lemma dot_not_alnum : is_alnum_hyphen "." = false.
Proof. reflexivity. Qed.

Lemma all_chars_append f a b :
  all_chars f (a ++ b) = all_chars f a && all_chars f b.
Proof.
  induction a as [|x a IH]; simpl; [reflexivity|].
  now rewrite IH, andb_assoc.
Qed.

Lemma all_chars_impl (f g : ascii -> bool) s :
  (forall c, f c = true -> g c = true) ->
  all_chars f s = true -> all_chars g s = true.
Proof.
  intros Hfg. induction s as [|x s IH]; simpl; [reflexivity|].
  intros H. apply andb_prop in H as [H1 H2].
  now rewrite (Hfg _ H1), IH.
Qed.

End ClassFacts.

(** ** From a match of [re] to the grammar *)

Section PatternToText.

Variable n : nat.

Lemma matches_literal_inv a s s' c c' :
  matches n (Literal a) s s' c c' -> s = String a s' /\ c' = c.
Proof. inversion 1; subst; auto. Qed.

Lemma matches_class_inv rs s s' c c' :
  matches n (CharClass rs) s s' c c' ->
  exists a, s = String a s' /\ in_class rs a = true /\ c' = c.
Proof. inversion 1; subst; eauto. Qed.

Lemma matches_concat_inv r1 r2 s s2 c c2 :
  matches n (Concat r1 r2) s s2 c c2 ->
  exists s1 c1, matches n r1 s s1 c c1 /\ matches n r2 s1 s2 c1 c2.
Proof. inversion 1; subst; eauto. Qed.

Lemma matches_alt_inv r1 r2 s s' c c' :
  matches n (Alternate r1 r2) s s' c c' ->
  matches n r1 s s' c c' \/ matches n r2 s s' c c'.
Proof. inversion 1; subst; auto. Qed.

Lemma matches_capture_inv i r s s' c c' :
  matches n (Capture i r) s s' c c' ->
  exists c1, matches n r s s' c c1 /\ c' = set_cap i (taken s s') c1.
Proof. inversion 1; subst; eauto. Qed.

Lemma matches_quest_inv r s s' c c' :
  matches n (Quest r) s s' c c' ->
  matches n r s s' c c' \/ (s' = s /\ c' = c).
Proof.
  intros H. apply matches_alt_inv in H as [H|H]; [now left|].
  inversion H; subst; auto.
Qed.

Lemma matches_end_inv s s' c c' :
  matches n EndText s s' c c' -> s = "" /\ s' = "" /\ c' = c.
Proof. inversion 1; subst; auto. Qed.

Lemma matches_begin_inv s s' c c' :
  matches n BeginText s s' c c' -> s' = s /\ c' = c /\ String.length s = n.
Proof. inversion 1; subst; auto. Qed.

(** [[...]*] reads bytes of the class. *)
Lemma matches_star_class rs s s' c c' :
  matches n (Star (CharClass rs)) s s' c c' ->
  exists p, s = p ++ s' /\ all_chars (in_class rs) p = true /\ c' = c.
Proof.
  intros H. remember (Star (CharClass rs)) as r eqn:Er.
  induction H; try discriminate; injection Er as ->.
  - exists "". auto.
  - apply matches_class_inv in H as (a & -> & Ha & ->).
    destruct (IHmatches2 eq_refl) as (p & -> & Hp & ->).
    exists (String a p). simpl. now rewrite Ha, Hp.
Qed.

(** [0|[1-9]\d*] reads a number without leading zero. *)
Lemma matches_numeric s s' c c' :
  matches n numeric s s' c c' ->
  exists d, s = d ++ s' /\ numeric_text d = true /\ c' = c.
Proof.
  intros H. apply matches_alt_inv in H as [H|H].
  - apply matches_literal_inv in H as [-> ->]. exists "0". auto.
  - apply matches_concat_inv in H as (s1 & c1 & H1 & H2).
    apply matches_class_inv in H1 as (a & -> & Ha & ->).
    apply matches_star_class in H2 as (p & -> & Hp & ->).
    exists (String a p). repeat split; [].
    rewrite in_class_nonzero in Ha. apply andb_prop in Ha as [Hd Hz].
    simpl. destruct (Ascii.eqb a "0"); [discriminate|].
    rewrite Hd. simpl. unfold all_digits.
    eapply all_chars_impl; [|exact Hp]. intros x. now rewrite in_class_digit.
Qed.

Lemma all_digits_alnum s : all_digits s = true -> all_chars is_alnum_hyphen s = true.
Proof. apply all_chars_impl, digit_is_alnum. Qed.

(** [0|[1-9]\d*|\d*[a-zA-Z-][0-9a-zA-Z-]*] reads a pre-release
    identifier. *)
Lemma matches_prerelease_ident s s' c c' :
  matches n prerelease_ident s s' c c' ->
  exists d, s = d ++ s' /\ prerelease_ident_text d = true /\ c' = c.
Proof.
  intros H. apply matches_alt_inv in H as [H|H];
    [|apply matches_alt_inv in H as [H|H]].
  - apply matches_literal_inv in H as [-> ->]. exists "0". auto.
  - assert (Hn : matches n numeric s s' c c') by now apply m_alt_r.
    apply matches_numeric in Hn as (d & -> & Hd & ->).
    exists d. unfold prerelease_ident_text. now rewrite Hd.
  - apply matches_concat_inv in H as (s1 & c1 & H1 & H2).
    apply matches_concat_inv in H2 as (s2 & c2 & H2 & H3).
    apply matches_star_class in H1 as (p & -> & Hp & ->).
    apply matches_class_inv in H2 as (a & -> & Ha & ->).
    apply matches_star_class in H3 as (q & -> & Hq & ->).
    exists (p ++ String a q). split; [|split; [|reflexivity]].
    + now rewrite append_assoc.
    + rewrite in_class_letter in Ha. apply andb_prop in Ha as [Ha1 Ha2].
      assert (Hpd : all_digits p = true).
      { eapply all_chars_impl; [|exact Hp]. intros x. now rewrite in_class_digit. }
      assert (Hqa : all_chars is_alnum_hyphen q = true).
      { eapply all_chars_impl; [|exact Hq]. intros x. now rewrite in_class_alnum. }
      unfold prerelease_ident_text, all_digits.
      rewrite !all_chars_append. simpl.
      rewrite (all_digits_alnum _ Hpd), Ha1, Hqa.
      apply negb_true_iff in Ha2. rewrite Ha2.
      simpl. rewrite andb_false_r. apply orb_true_r.
Qed.

(** [[0-9a-zA-Z-]+] reads a build identifier. *)
Lemma matches_build_ident s s' c c' :
  matches n build_ident s s' c c' ->
  exists d, s = d ++ s' /\ build_ident_text d = true /\ c' = c.
Proof.
  intros H. apply matches_concat_inv in H as (s1 & c1 & H1 & H2).
  apply matches_class_inv in H1 as (a & -> & Ha & ->).
  apply matches_star_class in H2 as (q & -> & Hq & ->).
  exists (String a q). repeat split; [].
  unfold build_ident_text. simpl. rewrite in_class_alnum in Ha. rewrite Ha.
  eapply all_chars_impl; [|exact Hq]. intros x. now rewrite in_class_alnum.
Qed.

Section Dotted.

Variable ident : regex.
Variable text : string -> bool.
Hypothesis ident_text : forall s s' c c',
  matches n ident s s' c c' ->
  exists d, s = d ++ s' /\ text d = true /\ c' = c.

Lemma matches_dotted_tail s s' c c' :
  matches n (Star (Concat (Literal ".") ident)) s s' c c' ->
  forall x, text x = true ->
  exists t, x ++ s = t ++ s' /\ dotted_text text t /\ c' = c.
Proof.
  intros H. remember (Star (Concat (Literal ".") ident)) as r eqn:Er.
  induction H; try discriminate; injection Er as ->; intros x Hx.
  - exists x. split; [reflexivity|]. split; [|reflexivity].
    exists [x]. simpl. rewrite Hx. repeat split. discriminate.
  - apply matches_concat_inv in H as (s3 & c3 & Hd & Hi).
    apply matches_literal_inv in Hd as [-> ->].
    apply ident_text in Hi as (d & -> & Hd & ->).
    destruct (IHmatches2 eq_refl d Hd) as (t & Et & (ids & Hne & Hall & ->) & ->).
    exists (x ++ "." ++ String.concat "." ids). split; [|split; [|reflexivity]].
    + rewrite append_assoc. simpl. now rewrite <- Et.
    + exists (x :: ids). split; [discriminate|]. simpl. rewrite Hx, Hall.
      split; [reflexivity|]. destruct ids; [contradiction | reflexivity].
Qed.

(** [ident(?:\.ident)*] reads identifiers separated by dots. *)
Lemma matches_dotted s s' c c' :
  matches n (dotted ident) s s' c c' ->
  exists t, s = t ++ s' /\ dotted_text text t /\ c' = c.
Proof.
  intros H. apply matches_concat_inv in H as (s1 & c1 & H1 & H2).
  apply ident_text in H1 as (d & -> & Hd & ->).
  now apply matches_dotted_tail with (x := d) in H2.
Qed.

End Dotted.

End PatternToText.

Lemma numeric_text_nonempty d : numeric_text d = true -> d <> "".
Proof. destruct d; [discriminate | discriminate]. Qed.

Lemma prerelease_ident_text_nonempty d : prerelease_ident_text d = true -> d <> "".
Proof. destruct d; [discriminate | discriminate]. Qed.

Lemma build_ident_text_nonempty d : build_ident_text d = true -> d <> "".
Proof. destruct d; [discriminate | discriminate]. Qed.

Lemma dotted_text_nonempty (text : string -> bool) t :
  (forall d, text d = true -> d <> "") -> dotted_text text t -> t <> "".
Proof.
  intros Hne (ids & Hids & Hall & ->).
  destruct ids as [|x ids]; [contradiction|].
  simpl in Hall. apply andb_prop in Hall as [Hx _]. apply Hne in Hx.
  destruct x; [contradiction|]. simpl. destruct ids; discriminate.
Qed.

Lemma eqb_nonempty (s : string) : s <> "" -> String.eqb s "" = false.
Proof. intros H. now apply String.eqb_neq. Qed.

(** A match of [re] from fresh submatches reads a text of the grammar to
    its end and records its five parts. *)
Lemma matches_re n s s' c' :
  matches n re s s' (repeat "" 6) c' ->
  exists major minor patch pre build,
    s' = "" /\ semver_parts s major minor patch pre build /\
    c' = [""; major; minor; patch; pre; build].
Proof.
  intros H. unfold re in H.
  apply matches_concat_inv in H as (s0 & c0 & Hb & H).
  apply matches_begin_inv in Hb as (-> & -> & _).
  apply matches_concat_inv in H as (s1 & c1 & H1 & H).
  apply matches_capture_inv in H1 as (c1' & H1 & ->).
  apply matches_numeric in H1 as (major & -> & Hmajor & ->).
  apply matches_concat_inv in H as (s2 & c2 & Hd & H).
  apply matches_literal_inv in Hd as [-> ->].
  apply matches_concat_inv in H as (s3 & c3 & H2 & H).
  apply matches_capture_inv in H2 as (c2' & H2 & ->).
  apply matches_numeric in H2 as (minor & -> & Hminor & ->).
  apply matches_concat_inv in H as (s4 & c4 & Hd & H).
  apply matches_literal_inv in Hd as [-> ->].
  apply matches_concat_inv in H as (s5 & c5 & H3 & H).
  apply matches_capture_inv in H3 as (c3' & H3 & ->).
  apply matches_numeric in H3 as (patch & -> & Hpatch & ->).
  apply matches_concat_inv in H as (s6 & c6 & Hpre & H).
  apply matches_concat_inv in H as (s7 & c7 & Hbuild & He).
  apply matches_end_inv in He as (E7 & E' & Ec). subst s7 s' c7.
  rewrite !taken_append in Hpre. simpl set_cap in Hpre.
  assert (Hpre' : exists pre,
             s5 = (if String.eqb pre "" then "" else "-" ++ pre) ++ s6 /\
             (pre = "" \/ dotted_text prerelease_ident_text pre) /\
             c6 = [""; major; minor; patch; pre; ""]).
  { apply matches_quest_inv in Hpre as [Hpre|[E6 Ec]]; [|subst s6 c6].
    - apply matches_concat_inv in Hpre as (t1 & d1 & Hd & Hpre).
      apply matches_literal_inv in Hd as [-> ->].
      apply matches_capture_inv in Hpre as (d2 & Hpre & ->).
      apply (matches_dotted n _ _ (matches_prerelease_ident n)) in Hpre
        as (pre & -> & Hpre & ->).
      exists pre. rewrite taken_append.
      rewrite eqb_nonempty
        by (eapply dotted_text_nonempty;
            [apply prerelease_ident_text_nonempty | exact Hpre]).
      auto.
    - exists "". auto. }
  destruct Hpre' as (pre & -> & Hpre' & ->). clear Hpre.
  assert (Hbuild' : exists build,
             s6 = (if String.eqb build "" then "" else "+" ++ build) /\
             (build = "" \/ dotted_text build_ident_text build) /\
             c' = [""; major; minor; patch; pre; build]).
  { apply matches_quest_inv in Hbuild as [Hbuild|[E6 Ec]]; [|subst s6 c'].
    - apply matches_concat_inv in Hbuild as (t1 & d1 & Hd & Hbuild).
      apply matches_literal_inv in Hd as [-> ->].
      apply matches_capture_inv in Hbuild as (d2 & Hbuild & ->).
      apply (matches_dotted n _ _ (matches_build_ident n)) in Hbuild
        as (build & -> & Hbuild & ->).
      exists build. rewrite taken_all, append_nil_r.
      rewrite eqb_nonempty
        by (eapply dotted_text_nonempty;
            [apply build_ident_text_nonempty | exact Hbuild]).
      auto.
    - exists "". auto. }
  destruct Hbuild' as (build & -> & Hbuild' & ->). clear Hbuild.
  exists major, minor, patch, pre, build.
  split; [reflexivity|]. split; [|reflexivity].
  unfold semver_parts, assemble.
  repeat split; auto.
Qed.

(** ** The search is anchored *)

Lemma backtrack_begin n r s c k :
  backtrack n (Concat BeginText r) s c k
  = if Nat.eqb (String.length s) n then backtrack n r s c k else None.
Proof. reflexivity. Qed.

Lemma search_begin n r s :
  String.length s < n -> search n (Concat BeginText r) s = None.
Proof.
  induction s as [|a s IH]; intros Hlt; cbn [search];
    rewrite backtrack_begin;
    match goal with
    | |- context [Nat.eqb ?l n] => destruct (Nat.eqb_spec l n) as [E|E]
    end;
    try (simpl in E, Hlt; lia).
  - reflexivity.
  - apply IH. simpl in Hlt. lia.
Qed.

(** With [^] in front only the start of the text is tried. *)
Lemma search_anchored r s :
  search (String.length s) (Concat BeginText r) s
  = backtrack (String.length s) (Concat BeginText r) s
      (repeat "" (S (num_cap (Concat BeginText r))))
      (fun s' caps => Some (set_cap 0 (taken s s') caps)).
Proof.
  destruct s as [|a s].
  - cbn [search]. now destruct (backtrack _ _ _ _ _).
  - cbn [search].
    destruct (backtrack _ _ _ _ _) as [res|]; [reflexivity|].
    apply search_begin. simpl. lia.
Qed.

(** A successful search of [re] in [s]: [s] is a text of the grammar and
    the submatches are its five parts. *)
Lemma search_re_parts s caps :
  search (String.length s) re s = Some caps ->
  exists major minor patch pre build,
    semver_parts s major minor patch pre build /\
    caps = [s; major; minor; patch; pre; build].
Proof.
  intros H. unfold re in H. rewrite search_anchored in H. fold re in H.
  apply backtrack_sound in H as (s' & c' & Hm & Hk).
  change (S (num_cap re)) with 6 in Hm.
  apply matches_re in Hm as (major & minor & patch & pre & build & -> & Hp & ->).
  injection Hk as <-. rewrite taken_all.
  exists major, minor, patch, pre, build. split; [exact Hp | reflexivity].
Qed.

(** ** Numbers: [strconv.ParseUint] and [%d] *)

Section NumberFacts.

Local Open Scope N_scope.

Lemma digit_of_digit c :
  strconv.is_digit c = true ->
  strconv.digit_of c = Some (N_of_ascii c - N_of_ascii "0") /\
  N_of_ascii c - N_of_ascii "0" < 10.
Proof.
  intros H. unfold strconv.digit_of. rewrite H. split; [reflexivity|].
  unfold strconv.is_digit in H. apply andb_prop in H as [H1 H2].
  apply N.leb_le in H1, H2. simpl in *. lia.
Qed.

Lemma decimal_from_le acc s : acc <= decimal_from acc s.
Proof.
  revert acc. induction s as [|c s IH]; intros acc; simpl; [lia|].
  specialize (IH (acc * 10 + (N_of_ascii c - 48))). lia.
Qed.

Lemma numeric_text_digits d : numeric_text d = true -> all_digits d = true.
Proof.
  destruct d as [|c d]; simpl; [discriminate|].
  destruct (Ascii.eqb_spec c "0") as [->|_].
  - intros H. apply String.eqb_eq in H. now subst.
  - auto.
Qed.

(** On digits the loop of [ParseUint] computes the decimal value, or
    reports that it does not fit 64 bits. *)
Lemma ParseUint_loop_digits s0 s : forall n,
  all_digits s = true -> n <= strconv.maxUint64 ->
  strconv.ParseUint_loop s0 s n
  = if decimal_from n s <=? strconv.maxUint64
    then (decimal_from n s, None)
    else (strconv.maxUint64, Some (strconv.rangeError "ParseUint" s0)).
Proof.
  unfold strconv.maxUint64.
  induction s as [|c s IH]; intros n Hd Hn; simpl.
  - destruct (N.leb_spec n 18446744073709551615); [reflexivity | lia].
  - simpl in Hd. apply andb_prop in Hd as [Hc Hs].
    destruct (digit_of_digit c Hc) as [-> Hlt]. simpl N_of_ascii in *.
    set (d := N_of_ascii c - 48) in *.
    destruct (N.leb_spec 10 d) as [|_]; [lia|].
    pose proof (decimal_from_le (n * 10 + d) s) as Hle.
    change (strconv.maxUint64 / 10 + 1) with 1844674407370955162.
    unfold strconv.maxUint64.
    destruct (N.leb_spec 1844674407370955162 n) as [Hcut|Hcut].
    + destruct (N.leb_spec (decimal_from (n * 10 + d) s) 18446744073709551615);
        [lia | reflexivity].
    + unfold strconv.wrap64. change (2 ^ 64) with 18446744073709551616.
      rewrite (N.mod_small (n * 10)) by lia.
      destruct (N.lt_ge_cases (n * 10 + d) 18446744073709551616) as [Hfit|Hover].
      * rewrite (N.mod_small (n * 10 + d)) by lia.
        destruct (N.ltb_spec (n * 10 + d) (n * 10)); [lia|].
        destruct (N.ltb_spec 18446744073709551615 (n * 10 + d)); [lia|].
        simpl. apply IH; [exact Hs | lia].
      * assert (Hmod : (n * 10 + d) mod 18446744073709551616
                       = n * 10 + d - 18446744073709551616).
        { symmetry. apply N.mod_unique with (q := 1); lia. }
        rewrite Hmod.
        destruct (N.ltb_spec (n * 10 + d - 18446744073709551616) (n * 10));
          [|lia].
        simpl.
        destruct (N.leb_spec (decimal_from (n * 10 + d) s) 18446744073709551615);
          [lia | reflexivity].
Qed.

Lemma ParseUint_numeric d :
  numeric_text d = true ->
  strconv.ParseUint d
  = if decimal d <=? strconv.maxUint64
    then (decimal d, None)
    else (strconv.maxUint64, Some (strconv.rangeError "ParseUint" d)).
Proof.
  intros H. pose proof (numeric_text_digits d H) as Hd.
  destruct d as [|c d]; [discriminate|].
  unfold strconv.ParseUint, decimal.
  apply ParseUint_loop_digits; [exact Hd | discriminate].
Qed.

(** The decimal digits of a text as the standard library reads them. *)
Lemma uint_of_digits s :
  all_digits s = true ->
  exists u, NilEmpty.uint_of_string s = Some u /\
            forall acc,
              decimal_from acc s
              = Unsigned.of_lu (Decimal.rev u) + acc * 10 ^ Unsigned.usize u.
Proof.
  induction s as [|c s IH]; simpl; intros H.
  - exists Decimal.Nil. split; [reflexivity|]. intros acc. simpl. lia.
  - apply andb_prop in H as [Hc Hs].
    destruct (IH Hs) as (u & Eu & Hu). rewrite Eu.
    assert (Hcase : exists k u',
               uint_of_char c (Some u) = Some u' /\
               N_of_ascii c - 48 = k /\
               Unsigned.usize u' = N.succ (Unsigned.usize u) /\
               Unsigned.of_lu (Decimal.rev u')
               = Unsigned.of_lu (Decimal.rev u) + k * 10 ^ Unsigned.usize u).
    { unfold Decimal.rev.
      destruct c as [[] [] [] [] [] [] [] []]; try discriminate Hc;
        simpl uint_of_char; simpl N_of_ascii;
        eexists; eexists; (split; [reflexivity|]);
        (split; [reflexivity|]); (split; [reflexivity|]);
        simpl Decimal.revapp; rewrite (Unsigned.of_lu_revapp u (_ Decimal.Nil));
        reflexivity. }
    destruct Hcase as (k & u' & Eu' & Ek & Esz & Elu).
    exists u'. split; [exact Eu'|]. intros acc.
    simpl N_of_ascii. rewrite Ek, Hu, Esz, Elu, N.pow_succ_r'. lia.
Qed.

Lemma decimal_of_uint s u :
  all_digits s = true -> NilEmpty.uint_of_string s = Some u ->
  decimal s = N.of_uint u.
Proof.
  intros Hs Eu. destruct (uint_of_digits s Hs) as (u' & Eu' & Hu).
  rewrite Eu in Eu'. injection Eu' as <-.
  unfold decimal. rewrite Hu, N.mul_0_l, N.add_0_r.
  unfold N.of_uint. now rewrite Unsigned.of_uint_alt.
Qed.

(** Printing the value of a number without leading zero gives its text
    back. *)
Lemma FormatUint_decimal d :
  numeric_text d = true -> strconv.FormatUint (decimal d) = d.
Proof.
  intros H. pose proof (numeric_text_digits d H) as Hd.
  destruct (uint_of_digits d Hd) as (u & Eu & _).
  unfold strconv.FormatUint.
  rewrite (decimal_of_uint d u Hd Eu), DecimalN.Unsigned.to_of.
  assert (Hnorm : Decimal.unorm u = u).
  { destruct d as [|c d]; [discriminate|]. simpl in H, Eu.
    destruct (Ascii.eqb_spec c "0") as [->|Hc].
    - apply String.eqb_eq in H. subst d. simpl in Eu. now injection Eu as <-.
    - destruct (NilEmpty.uint_of_string d) as [v|]; [|discriminate].
      apply uint_of_char_spec in Eu.
      destruct Eu as [[E _]|Eu]; [contradiction|].
      repeat (destruct Eu as [[_ ->]|Eu]; [reflexivity|]).
      destruct Eu as [_ ->]. reflexivity. }
  rewrite Hnorm. now apply NilEmpty.sus.
Qed.

End NumberFacts.

(** ** From the grammar to a match of [re] *)

Section TextToPattern.

Variable n : nat.

Lemma star_class_matches rs p s' c :
  all_chars (in_class rs) p = true ->
  matches n (Star (CharClass rs)) (p ++ s') s' c c.
Proof.
  induction p as [|a p IH]; simpl; intros H.
  - constructor.
  - apply andb_prop in H as [Ha Hp].
    eapply m_star_step; [now apply m_class | simpl; lia | now apply IH].
Qed.

Lemma digits_in_class p :
  all_digits p = true -> all_chars (in_class [("0", "9")]%char) p = true.
Proof. apply all_chars_impl. intros x. now rewrite in_class_digit. Qed.

Lemma alnum_in_class p :
  all_chars is_alnum_hyphen p = true ->
  all_chars (in_class [("0", "9"); ("a", "z"); ("A", "Z"); ("-", "-")]%char) p
  = true.
Proof. apply all_chars_impl. intros x. now rewrite in_class_alnum. Qed.

Lemma numeric_matches d s' c :
  numeric_text d = true -> matches n numeric (d ++ s') s' c c.
Proof.
  destruct d as [|a d]; simpl; [discriminate|].
  destruct (Ascii.eqb_spec a "0") as [->|Ha]; intros H.
  - apply String.eqb_eq in H. subst d. apply m_alt_l. constructor.
  - apply andb_prop in H as [Hd Hs]. apply m_alt_r.
    eapply m_concat.
    + apply m_class. rewrite in_class_nonzero, Hd.
      now apply Ascii.eqb_neq in Ha as ->.
    + apply star_class_matches. now apply digits_in_class.
Qed.

(** Letters, digits and hyphens that are not all digits: some digits, a
    letter or hyphen, and the rest. *)
Lemma alnum_split d :
  all_chars is_alnum_hyphen d = true -> all_digits d = false ->
  exists p a q,
    d = p ++ String a q /\ all_digits p = true /\
    is_alnum_hyphen a = true /\ strconv.is_digit a = false /\
    all_chars is_alnum_hyphen q = true.
Proof.
  induction d as [|x d IH]; simpl; [discriminate|].
  intros Ha Hd. apply andb_prop in Ha as [Hx Hrest].
  rewrite all_digits_cons in Hd.
  destruct (strconv.is_digit x) eqn:Ex.
  - simpl in Hd. destruct (IH Hrest Hd) as (p & a & q & -> & Hp & Ha & Hna & Hq).
    exists (String x p), a, q. simpl. rewrite all_digits_cons.
    now rewrite Ex, Hp.
  - exists "", x, d. auto.
Qed.

Lemma prerelease_ident_matches d s' c :
  prerelease_ident_text d = true -> matches n prerelease_ident (d ++ s') s' c c.
Proof.
  unfold prerelease_ident_text. intros H.
  destruct (numeric_text d) eqn:Hn.
  - apply (numeric_matches d s' c) in Hn.
    apply matches_alt_inv in Hn as [Hn|Hn].
    + now apply m_alt_l.
    + apply m_alt_r. now apply m_alt_l.
  - simpl in H. apply andb_prop in H as [Ha Hd].
    apply negb_true_iff in Hd.
    destruct (alnum_split d Ha Hd) as (p & a & q & -> & Hp & Haa & Hna & Hq).
    apply m_alt_r. apply m_alt_r. rewrite append_assoc.
    eapply m_concat; [apply star_class_matches; now apply digits_in_class|].
    simpl. eapply m_concat.
    + apply m_class. now rewrite in_class_letter, Haa, Hna.
    + apply star_class_matches. now apply alnum_in_class.
Qed.

Lemma build_ident_matches d s' c :
  build_ident_text d = true -> matches n build_ident (d ++ s') s' c c.
Proof.
  unfold build_ident_text. destruct d as [|a d]; simpl; [discriminate|].
  intros H. apply andb_prop in H as [Ha Hd].
  eapply m_concat.
  - apply m_class. now rewrite in_class_alnum.
  - apply star_class_matches. now apply alnum_in_class.
Qed.

Section Dotted.

Variable ident : regex.
Variable text : string -> bool.
Hypothesis text_ident : forall d s' c,
  text d = true -> matches n ident (d ++ s') s' c c.

Lemma dotted_matches t s' c :
  dotted_text text t -> matches n (dotted ident) (t ++ s') s' c c.
Proof.
  intros (ids & Hne & Hall & ->).
  destruct ids as [|x ids]; [contradiction|]. clear Hne.
  revert x Hall. induction ids as [|y ids IH]; intros x Hall.
  - simpl in *. apply andb_prop in Hall as [Hx _].
    eapply m_concat; [now apply text_ident | constructor].
  - cbn [forallb] in Hall. apply andb_prop in Hall as [Hx Hall].
    specialize (IH y Hall).
    apply matches_concat_inv in IH as (s1 & c1 & H1 & H2).
    change (String.concat "." (x :: y :: ids))
      with (x ++ "." ++ String.concat "." (y :: ids)).
    rewrite append_assoc.
    eapply m_concat; [now apply text_ident|].
    pose proof (matches_suffix _ _ _ _ _ _ H2) as [p2 Ep2].
    pose proof (matches_suffix _ _ _ _ _ _ H1) as [p1 Ep1].
    change (("." ++ String.concat "." (y :: ids)) ++ s')
      with (String "." (String.concat "." (y :: ids) ++ s')).
    eapply m_star_step; [| |exact H2].
    + eapply m_concat; [constructor | exact H1].
    + rewrite Ep1. simpl. rewrite !length_append. lia.
Qed.

End Dotted.

End TextToPattern.

Lemma capture_matches n i r d s' c :
  matches n r (d ++ s') s' c c ->
  matches n (Capture i r) (d ++ s') s' c (set_cap i d c).
Proof.
  intros H. apply (m_capture n i) in H. now rewrite taken_append in H.
Qed.

(** An optional part of [re]: a separator and a captured dotted sequence,
    the whole made optional by [?]; it is absent when the text [t] of the
    part is empty. *)
Lemma optional_part_matches n sep i ident text t s' c :
  (forall d s' c, text d = true -> matches n ident (d ++ s') s' c c) ->
  t = "" \/ dotted_text text t ->
  matches n (Quest (Concat (Literal sep) (Capture i (dotted ident))))
    ((if String.eqb t "" then "" else String sep t) ++ s') s' c
    (if String.eqb t "" then c else set_cap i t c).
Proof.
  intros Hident Ht. destruct (String.eqb_spec t "") as [->|Hne].
  - apply m_alt_r. constructor.
  - destruct Ht as [Ht|Ht]; [contradiction|].
    apply m_alt_l. simpl. eapply m_concat; [constructor|].
    apply capture_matches. now apply dotted_matches with (text := text).
Qed.

(** A text of the grammar is matched by [re], which records its parts. *)
Lemma re_matches s major minor patch pre build :
  semver_parts s major minor patch pre build ->
  matches (String.length s) re s "" (repeat "" 6)
    [""; major; minor; patch; pre; build].
Proof.
  intros (-> & Hmajor & Hminor & Hpatch & Hpre & Hbuild).
  set (c3 := [""; major; minor; patch; ""; ""]).
  replace [""; major; minor; patch; pre; build]
    with (if String.eqb build "" then
            (if String.eqb pre "" then c3 else set_cap 4 pre c3)
          else set_cap 5 build
                 (if String.eqb pre "" then c3 else set_cap 4 pre c3)).
  2:{ subst c3.
      destruct (String.eqb_spec build "") as [->|_];
        destruct (String.eqb_spec pre "") as [->|_]; reflexivity. }
  unfold re, assemble.
  rewrite <- (append_nil_r (if String.eqb build "" then _ else _)).
  eapply m_concat; [now apply m_begin|].
  eapply m_concat; [apply capture_matches, numeric_matches, Hmajor|].
  eapply m_concat; [apply m_literal|].
  eapply m_concat; [apply capture_matches, numeric_matches, Hminor|].
  eapply m_concat; [apply m_literal|].
  eapply m_concat; [apply capture_matches, numeric_matches, Hpatch|].
  eapply m_concat;
    [apply (optional_part_matches _ "-" 4 _ prerelease_ident_text);
     [intros; now apply prerelease_ident_matches | exact Hpre]|].
  eapply m_concat;
    [apply (optional_part_matches _ "+" 5 _ build_ident_text);
     [intros; now apply build_ident_matches | exact Hbuild]|].
  apply m_end.
Qed.

(** [re] finds every text of the grammar. *)
Lemma search_re_complete s major minor patch pre build :
  semver_parts s major minor patch pre build ->
  search (String.length s) re s <> None.
Proof.
  intros H. apply re_matches in H.
  unfold re. rewrite search_anchored. fold re.
  eapply backtrack_complete; [exact H | discriminate].
Qed.

(** ** A text of the grammar has one reading *)

Lemma split_unique (f : ascii -> bool) a : forall a' r r',
  all_chars f a = true -> all_chars f a' = true ->
  stops f r -> stops f r' ->
  a ++ r = a' ++ r' -> a = a' /\ r = r'.
Proof.
  induction a as [|x a IH]; intros [|x' a'] r r' Ha Ha' Hr Hr' E; simpl in *.
  - auto.
  - subst r. simpl in Hr. apply andb_prop in Ha' as [Hx _]. congruence.
  - subst r'. simpl in Hr'. apply andb_prop in Ha as [Hx _]. congruence.
  - injection E as -> E.
    apply andb_prop in Ha as [_ Ha]. apply andb_prop in Ha' as [_ Ha'].
    destruct (IH a' r r' Ha Ha' Hr Hr' E) as [-> ->]. auto.
Qed.

Lemma dotted_text_chars (text : string -> bool) t :
  (forall d, text d = true -> all_chars is_alnum_hyphen d = true) ->
  dotted_text text t -> all_chars is_ident_or_dot t = true.
Proof.
  intros Htext (ids & _ & Hall & ->).
  assert (Hweak : forall d, text d = true -> all_chars is_ident_or_dot d = true).
  { intros d Hd. apply (all_chars_impl is_alnum_hyphen); [|now apply Htext].
    intros c Hc. unfold is_ident_or_dot. now rewrite Hc. }
  induction ids as [|x ids IH]; [reflexivity|].
  simpl in Hall. apply andb_prop in Hall as [Hx Hall].
  destruct ids as [|y ids]; [now apply Hweak|].
  change (String.concat "." (x :: y :: ids))
    with (x ++ String "." (String.concat "." (y :: ids))).
  rewrite all_chars_append, (Hweak _ Hx). cbn [all_chars andb].
  change (is_ident_or_dot ".") with true. now rewrite (IH Hall).
Qed.

Lemma prerelease_ident_text_alnum d :
  prerelease_ident_text d = true -> all_chars is_alnum_hyphen d = true.
Proof.
  unfold prerelease_ident_text. intros H. apply orb_prop in H as [H|H].
  - now apply all_digits_alnum, numeric_text_digits.
  - now apply andb_prop in H as [H _].
Qed.

Lemma build_ident_text_alnum d :
  build_ident_text d = true -> all_chars is_alnum_hyphen d = true.
Proof. unfold build_ident_text. intros H. now apply andb_prop in H as [_ H]. Qed.

Lemma optional_build_unique build build' :
  (if String.eqb build "" then "" else "+" ++ build)
  = (if String.eqb build' "" then "" else "+" ++ build') ->
  build = build'.
Proof.
  destruct (String.eqb_spec build "") as [->|_];
    destruct (String.eqb_spec build' "") as [->|_]; simpl; congruence.
Qed.

Lemma optional_build_stops (f : ascii -> bool) build :
  f "+"%char = false ->
  stops f (if String.eqb build "" then "" else "+" ++ build).
Proof. intros Hf. now destruct (String.eqb build ""). Qed.

Lemma optional_parts_stop pre build :
  stops strconv.is_digit
    ((if String.eqb pre "" then "" else "-" ++ pre)
       ++ (if String.eqb build "" then "" else "+" ++ build)).
Proof.
  destruct (String.eqb pre ""); destruct (String.eqb build ""); reflexivity.
Qed.

Lemma semver_parts_unique s major minor patch pre build major' minor' patch' pre' build' :
  semver_parts s major minor patch pre build ->
  semver_parts s major' minor' patch' pre' build' ->
  major = major' /\ minor = minor' /\ patch = patch' /\ pre = pre' /\ build = build'.
Proof.
  intros (-> & Hmajor & Hminor & Hpatch & Hpre & Hbuild)
         (E & Hmajor' & Hminor' & Hpatch' & Hpre' & Hbuild').
  unfold assemble in E.
  apply split_unique with (f := strconv.is_digit) in E as [<- E];
    try (now apply numeric_text_digits); try reflexivity.
  injection E as E.
  apply split_unique with (f := strconv.is_digit) in E as [<- E];
    try (now apply numeric_text_digits); try reflexivity.
  injection E as E.
  apply split_unique with (f := strconv.is_digit) in E as [<- E];
    try (now apply numeric_text_digits); try apply optional_parts_stop.
  repeat (split; [reflexivity|]).
  assert (Hchars : forall p, dotted_text prerelease_ident_text p ->
                            all_chars is_ident_or_dot p = true).
  { intros p. apply dotted_text_chars, prerelease_ident_text_alnum. }
  assert (Hne : forall p, p = "" \/ dotted_text prerelease_ident_text p ->
                         p <> "" -> dotted_text prerelease_ident_text p).
  { intros p [->|Hp] Hp'; [contradiction | exact Hp]. }
  destruct (String.eqb_spec pre "") as [->|Hn];
    destruct (String.eqb_spec pre' "") as [->|Hn'].
  - split; [reflexivity|]. now apply optional_build_unique.
  - exfalso. simpl in E. destruct (String.eqb build ""); discriminate.
  - exfalso. simpl in E. destruct (String.eqb build' ""); discriminate.
  - simpl in E. injection E as E.
    apply split_unique with (f := is_ident_or_dot) in E as [<- E];
      try (now apply Hchars, Hne); try (now apply optional_build_stops).
    split; [reflexivity|]. now apply optional_build_unique.
Qed.

(** The search of [re] in a text succeeds exactly on the texts of the
    grammar, and returns the text and its five parts. *)
Lemma search_re_spec s major minor patch pre build :
  semver_parts s major minor patch pre build <->
  search (String.length s) re s = Some [s; major; minor; patch; pre; build].
Proof.
  split.
  - intros H. pose proof (search_re_complete _ _ _ _ _ _ H) as Hs.
    destruct (search (String.length s) re s) as [caps|] eqn:E; [|contradiction].
    apply search_re_parts in E as (m1 & m2 & m3 & p & b & H' & ->).
    destruct (semver_parts_unique _ _ _ _ _ _ _ _ _ _ _ H H')
      as (-> & -> & -> & -> & ->).
    reflexivity.
  - intros H. apply search_re_parts in H as (m1 & m2 & m3 & p & b & H' & E).
    now injection E as -> -> -> -> ->.
Qed.

Lemma MatchString_re_iff s : MatchString re s = true <-> semver_text s.
Proof.
  unfold MatchString, semver_text. split.
  - destruct (search (String.length s) re s) as [caps|] eqn:E; [|discriminate].
    intros _. apply search_re_parts in E as (m1 & m2 & m3 & p & b & H & _).
    now exists m1, m2, m3, p, b.
  - intros (m1 & m2 & m3 & p & b & H). apply search_re_spec in H. now rewrite H.
Qed.

(** ** [TryParse] *)

Lemma semver_parts_head s major minor patch pre build :
  semver_parts s major minor patch pre build ->
  exists c s', s = String c s' /\ strconv.is_digit c = true.
Proof.
  intros (-> & Hmajor & _). apply numeric_text_digits in Hmajor as Hd.
  destruct major as [|c major]; [discriminate|].
  rewrite all_digits_cons in Hd. apply andb_prop in Hd as [Hc _].
  exists c. eexists. split; [reflexivity | exact Hc].
Qed.

(** A text whose first byte is no digit is outside the grammar. *)
Lemma MatchString_re_head c s :
  strconv.is_digit c = false -> MatchString re (String c s) = false.
Proof.
  intros Hc. destruct (MatchString re (String c s)) eqn:E; [|reflexivity].
  apply MatchString_re_iff in E as (m1 & m2 & m3 & p & b & H).
  apply semver_parts_head in H as (c' & s' & E & Hc').
  injection E as <- _. congruence.
Qed.

Lemma MatchString_re_nil : MatchString re "" = false.
Proof. reflexivity. Qed.

(** [TryParse] on an input whose stripped text is outside the grammar. *)
Lemma TryParse_no_match input :
  input <> "" ->
  MatchString re (strings.TrimPrefix input "v") = false ->
  TryParse input = (zeroVersion, Some ErrInvalidFormat).
Proof.
  intros Hne Hm. unfold TryParse.
  rewrite (eqb_nonempty _ Hne), Hm. reflexivity.
Qed.

(** [TryParse] on an input whose stripped text is in the grammar: the
    three numbers are converted in turn, and the first that does not fit
    64 bits ends the call with [strconv]'s range error joined to
    [ErrBase]. *)
Lemma TryParse_parts input major minor patch pre build :
  semver_parts (strings.TrimPrefix input "v") major minor patch pre build ->
  TryParse input =
    if (decimal major <=? strconv.maxUint64)%N then
      if (decimal minor <=? strconv.maxUint64)%N then
        if (decimal patch <=? strconv.maxUint64)%N then
          (mkVersion (decimal major) (decimal minor) (decimal patch) pre build,
           None)
        else
          (zeroVersion,
           Some (errors.Join ErrBase (strconv.rangeError "ParseUint" patch)))
      else
        (zeroVersion,
         Some (errors.Join ErrBase (strconv.rangeError "ParseUint" minor)))
    else
      (zeroVersion,
       Some (errors.Join ErrBase (strconv.rangeError "ParseUint" major))).
Proof.
  intros H.
  assert (Hne : input <> "").
  { intros ->. apply semver_parts_head in H as (c & s' & E & _). discriminate. }
  pose proof H as (_ & Hmajor & Hminor & Hpatch & _).
  apply search_re_spec in H as Hsearch.
  unfold TryParse, MatchString, FindStringSubmatch.
  rewrite (eqb_nonempty _ Hne), Hsearch.
  cbn [negb List.length Nat.ltb Nat.leb nth].
  rewrite (ParseUint_numeric _ Hmajor), (ParseUint_numeric _ Hminor),
    (ParseUint_numeric _ Hpatch).
  destruct (decimal major <=? strconv.maxUint64)%N; [|reflexivity].
  destruct (decimal minor <=? strconv.maxUint64)%N; [|reflexivity].
  destruct (decimal patch <=? strconv.maxUint64)%N; reflexivity.
Qed.

(** [String] of a parsed version is the text of its parts. *)
Lemma String_assemble major minor patch pre build :
  numeric_text major = true -> numeric_text minor = true ->
  numeric_text patch = true ->
  String_ (mkVersion (decimal major) (decimal minor) (decimal patch) pre build)
  = assemble major minor patch pre build.
Proof.
  intros H1 H2 H3. unfold String_, assemble. simpl.
  rewrite !FormatUint_decimal by assumption.
  destruct (String.eqb pre ""); destruct (String.eqb build ""); simpl;
    rewrite ?append_assoc; simpl; rewrite ?append_assoc; simpl;
    rewrite ?append_assoc; simpl; rewrite ?append_nil_r; reflexivity.
Qed.

(** ** [Compare] *)

Section Lexicographic.

Context {A B : Type} (ca : A -> A -> comparison) (cb : B -> B -> comparison).
Context `{!TotalCompare ca} `{!TotalCompare cb}.

#[export] Instance lexc_total : TotalCompare (lexc ca cb).
Proof.
  split; unfold lexc, lex.
  - intros [a b]. simpl. now rewrite !cmp_refl.
  - intros [a b] [a' b']. simpl.
    destruct (ca a a') eqn:Ea; try discriminate.
    intros Eb. apply cmp_eq in Ea, Eb. now subst.
  - intros [a b] [a' b']. simpl.
    rewrite (cmp_antisym (cmp := ca) a a'), (cmp_antisym (cmp := cb) b b').
    now destruct (ca a' a).
  - intros [a b] [a' b'] [a'' b'']. simpl.
    destruct (ca a a') eqn:E1; try discriminate;
      destruct (ca a' a'') eqn:E2; try discriminate; intros H1 H2.
    + apply cmp_eq in E1, E2. subst. rewrite cmp_refl. eapply cmp_trans; eassumption.
    + apply cmp_eq in E1. subst. now rewrite E2.
    + apply cmp_eq in E2. subst. now rewrite E1.
    + now rewrite (cmp_trans _ _ _ E1 E2).
Qed.

End Lexicographic.

#[export] Instance N_compare_total : TotalCompare N.compare.
Proof.
  split.
  - apply N.compare_refl.
  - intros x y. apply N.compare_eq.
  - intros x y. apply N.compare_antisym.
  - intros x y z H1 H2. rewrite N.compare_gt_iff in *. lia.
Qed.

Lemma string_compare_gt_trans x y z :
  String.compare x y = Gt -> String.compare y z = Gt -> String.compare x z = Gt.
Proof.
  intros H1 H2.
  rewrite String.compare_antisym in H1, H2 |- *.
  destruct (String.compare y x) eqn:E1; try discriminate.
  destruct (String.compare z y) eqn:E2; try discriminate.
  apply String_as_OT.cmp_lt in E1, E2.
  pose proof (String_as_OT.lt_trans _ _ _ E2 E1) as Ht.
  apply String_as_OT.cmp_lt in Ht. unfold String_as_OT.cmp in Ht.
  now rewrite Ht.
Qed.

#[export] Instance pre_compare_total : TotalCompare pre_compare.
Proof.
  split; unfold pre_compare.
  - intros x. destruct (String.eqb x ""); [reflexivity|].
    now apply String_as_OT.cmp_eq.
  - intros x y.
    destruct (String.eqb_spec x ""), (String.eqb_spec y "");
      try discriminate; [congruence|].
    apply String.compare_eq_iff.
  - intros x y.
    destruct (String.eqb x ""), (String.eqb y ""); try reflexivity.
    apply String.compare_antisym.
  - intros x y z.
    destruct (String.eqb x ""), (String.eqb y ""), (String.eqb z "");
      try discriminate; try reflexivity.
    apply string_compare_gt_trans.
Qed.

#[export] Instance key_compare_total : TotalCompare key_compare.
Proof. unfold key_compare. typeclasses eauto. Qed.

Lemma sign_opp c : sign (CompOpp c) = (- sign c)%Z.
Proof. now destruct c. Qed.

Lemma sign_inj c d : sign c = sign d -> c = d.
Proof. destruct c, d; simpl; intros H; try reflexivity; discriminate. Qed.

(** [Compare] is the sign of the lexicographic comparison of major, minor,
    patch and pre-release. *)
Lemma Compare_key a b : Compare a b = sign (key_compare (key a) (key b)).
Proof.
  unfold Compare, key_compare, key, lexc, lex, pre_compare. simpl.
  destruct (N.eqb_spec (Major a) (Major b)) as [E1|E1]; simpl.
  2:{ destruct (N.ltb_spec (Major b) (Major a));
      destruct (N.compare_spec (Major a) (Major b)); try lia; reflexivity. }
  rewrite E1, N.compare_refl.
  destruct (N.eqb_spec (Minor a) (Minor b)) as [E2|E2]; simpl.
  2:{ destruct (N.ltb_spec (Minor b) (Minor a));
      destruct (N.compare_spec (Minor a) (Minor b)); try lia; reflexivity. }
  rewrite E2, N.compare_refl.
  destruct (N.eqb_spec (Patch a) (Patch b)) as [E3|E3]; simpl.
  2:{ destruct (N.ltb_spec (Patch b) (Patch a));
      destruct (N.compare_spec (Patch a) (Patch b)); try lia; reflexivity. }
  rewrite E3, N.compare_refl.
  unfold strings.gt, strings.lt.
  destruct (String.eqb (PreRelease a) ""), (String.eqb (PreRelease b) "");
    simpl; try reflexivity.
  now destruct (String.compare (PreRelease a) (PreRelease b)).
Qed.

Lemma key_eq a b :
  key a = key b <->
  Major a = Major b /\ Minor a = Minor b /\ Patch a = Patch b
  /\ PreRelease a = PreRelease b.
Proof.
  unfold key. split.
  - intros [= -> -> -> ->]. auto.
  - intros (-> & -> & -> & ->). reflexivity.
Qed.

(** ** The outcomes of [TryParse] *)

Lemma semver_parts_no_prefix s major minor patch pre build :
  semver_parts s major minor patch pre build -> strings.TrimPrefix s "v" = s.
Proof.
  intros H. apply semver_parts_head in H as (c & s' & -> & Hc).
  apply TrimPrefix_v_other. intros ->. discriminate.
Qed.

Lemma semver_parts_no_v s major minor patch pre build :
  semver_parts s major minor patch pre build -> strings.HasPrefix s "v" = false.
Proof.
  intros H. apply semver_parts_head in H as (c & s' & -> & Hc).
  unfold strings.HasPrefix. cbn [String.prefix].
  destruct (ascii_dec "v" c) as [<-|_]; [discriminate | reflexivity].
Qed.

(** A non-empty input ends in [ErrInvalidFormat], in a range error joined
    to [ErrBase], or in a version. *)
Lemma TryParse_cases input :
  input <> "" ->
  TryParse input = (zeroVersion, Some ErrInvalidFormat) \/
  (exists num,
      TryParse input
      = (zeroVersion,
         Some (errors.Join ErrBase (strconv.rangeError "ParseUint" num)))) \/
  (exists v, TryParse input = (v, None)).
Proof.
  intros Hne.
  destruct (MatchString re (strings.TrimPrefix input "v")) eqn:Hm.
  - apply MatchString_re_iff in Hm as (m1 & m2 & m3 & p & b & H).
    right. rewrite (TryParse_parts _ _ _ _ _ _ H).
    destruct (decimal m1 <=? strconv.maxUint64)%N; [|left; eauto].
    destruct (decimal m2 <=? strconv.maxUint64)%N; [|left; eauto].
    destruct (decimal m3 <=? strconv.maxUint64)%N; [right|left]; eauto.
  - left. now apply TryParse_no_match.
Qed.

Lemma is_space_not_digit c :
  is_space c = true -> strconv.is_digit c = false /\ c <> "v"%char.
Proof.
  destruct c as [[] [] [] [] [] [] [] []]; try discriminate;
    intros _; split; try reflexivity; discriminate.
Qed.

Lemma spec_trimmed_head c s : spec_trimmed (String c s) = "" -> is_space c = true.
Proof.
  unfold spec_trimmed. simpl. destruct (is_space c) eqn:E; [reflexivity|].
  simpl. rewrite E. discriminate.
Qed.

(** An input whose first byte is neither a digit nor [v]. *)
Lemma TryParse_bad_head c s :
  strconv.is_digit c = false -> c <> "v"%char ->
  TryParse (String c s) = (zeroVersion, Some ErrInvalidFormat).
Proof.
  intros Hd Hv. apply TryParse_no_match; [discriminate|].
  rewrite TrimPrefix_v_other by exact Hv. now apply MatchString_re_head.
Qed.

(** An input whose byte after the prefix [v] is no digit. *)
Lemma TryParse_v_bad_head c s :
  strconv.is_digit c = false ->
  TryParse (String "v" (String c s)) = (zeroVersion, Some ErrInvalidFormat).
Proof.
  intros Hd. apply TryParse_no_match; [discriminate|].
  rewrite TrimPrefix_v_cons. now apply MatchString_re_head.
Qed.

(** * The claims *)

(** C1, where the code departs from it: the comments of [TryParse] and
    [Parse] give [ErrEmpty] and [ErrInvalidFormat] as the errors, and C1
    asks for [ErrInvalidFormat] on a number that exceeds the 64-bit
    unsigned range.  The code does otherwise: when the text after the
    optional [v] is in the grammar (so that [re] matches it) and its
    major, minor or patch number exceeds that range, [TryParse] returns
    the zero [Version] and [errors.Join(ErrBase, err)] where [err] is the
    range error of [strconv.ParseUint] for one of the numbers that exceed
    the range.  That error is [ErrBase] and [strconv.ErrRange] for
    [errors.Is], and it is not [ErrInvalidFormat]. *)
Theorem TryParse_overflow input major minor patch pre build :
  semver_parts (strings.TrimPrefix input "v") major minor patch pre build ->
  (strconv.maxUint64 < decimal major \/ strconv.maxUint64 < decimal minor
   \/ strconv.maxUint64 < decimal patch)%N ->
  MatchString re (strings.TrimPrefix input "v") = true /\
  exists num,
    In num [major; minor; patch] /\
    (strconv.maxUint64 < decimal num)%N /\
    TryParse input
    = (zeroVersion,
       Some (errors.Join ErrBase (strconv.rangeError "ParseUint" num))) /\
    errors.Is (errors.Join ErrBase (strconv.rangeError "ParseUint" num))
      ErrBase = true /\
    errors.Is (errors.Join ErrBase (strconv.rangeError "ParseUint" num))
      strconv.ErrRange = true /\
    errors.Is (errors.Join ErrBase (strconv.rangeError "ParseUint" num))
      ErrInvalidFormat = false.
Proof.
  intros H Hover.
  split; [apply MatchString_re_iff; unfold semver_text; eauto 6|].
  rewrite (TryParse_parts _ _ _ _ _ _ H).
  destruct (N.leb_spec (decimal major) strconv.maxUint64) as [H1|H1].
  - destruct (N.leb_spec (decimal minor) strconv.maxUint64) as [H2|H2].
    + destruct (N.leb_spec (decimal patch) strconv.maxUint64) as [H3|H3].
      * exfalso. lia.
      * exists patch. simpl. repeat split; auto.
    + exists minor. simpl. repeat split; auto.
  - exists major. simpl. repeat split; auto.
Qed.

Lemma TryParse_overflow_witness :
  MatchString re (strings.TrimPrefix "v18446744073709551616.0.0" "v") = true /\
  exists num,
    In num ["18446744073709551616"; "0"; "0"] /\
    (strconv.maxUint64 < decimal num)%N /\
    TryParse "v18446744073709551616.0.0"
    = (zeroVersion,
       Some (errors.Join ErrBase (strconv.rangeError "ParseUint" num))) /\
    errors.Is (errors.Join ErrBase (strconv.rangeError "ParseUint" num))
      ErrBase = true /\
    errors.Is (errors.Join ErrBase (strconv.rangeError "ParseUint" num))
      strconv.ErrRange = true /\
    errors.Is (errors.Join ErrBase (strconv.rangeError "ParseUint" num))
      ErrInvalidFormat = false.
Proof.
  apply (TryParse_overflow "v18446744073709551616.0.0"
           "18446744073709551616" "0" "0" "" "").
  - unfold semver_parts. repeat split; auto.
  - left. vm_compute. reflexivity.
Defined.

(** C1 at the input ["18446744073709551616.0.0"]: it is in the grammar,
    its major number is [2^64], and the error [TryParse] returns for it is
    not [ErrInvalidFormat]. *)
Lemma TryParse_overflow_not_ErrInvalidFormat :
  MatchString re (strings.TrimPrefix "18446744073709551616.0.0" "v") = true
  /\ semver_parts "18446744073709551616.0.0" "18446744073709551616" "0" "0" "" ""
  /\ (strconv.maxUint64 < decimal "18446744073709551616")%N
  /\ snd (TryParse "18446744073709551616.0.0") <> Some ErrInvalidFormat
  /\ (exists e, snd (TryParse "18446744073709551616.0.0") = Some e
                /\ errors.Is e ErrInvalidFormat = false)
  /\ TryParse "18446744073709551616.0.0"
     = (zeroVersion,
        Some (errors.Join ErrBase
                (strconv.rangeError "ParseUint" "18446744073709551616"))).
Proof.
  split; [reflexivity|].
  split; [unfold semver_parts; repeat split; auto|].
  split; [vm_compute; reflexivity|].
  split; [vm_compute; discriminate|].
  split; [|reflexivity].
  eexists. split; vm_compute; reflexivity.
Qed.

(** C2, as the code has it: [TryParse] returns [ErrEmpty] exactly when the
    input itself, untrimmed, is the empty string; a non-empty input that
    is empty once trimmed of white space gets [ErrInvalidFormat]. *)
Theorem TryParse_ErrEmpty_iff input :
  (snd (TryParse input) = Some ErrEmpty <-> input = "") /\
  (input <> "" -> spec_trimmed input = "" ->
   TryParse input = (zeroVersion, Some ErrInvalidFormat)).
Proof.
  split; [split|].
  - intros H. destruct input as [|c s]; [reflexivity|]. exfalso.
    destruct (TryParse_cases (String c s)) as [E|[[num E]|[v E]]];
      [discriminate| | |]; rewrite E in H; discriminate.
  - intros ->. reflexivity.
  - intros Hne Ht. destruct input as [|c s]; [contradiction|].
    apply spec_trimmed_head, is_space_not_digit in Ht as [Hd Hv].
    now apply TryParse_bad_head.
Qed.

Lemma TryParse_ErrEmpty_iff_witness :
  TryParse " " = (zeroVersion, Some ErrInvalidFormat).
Proof.
  apply (proj2 (TryParse_ErrEmpty_iff " ")); [discriminate | reflexivity].
Defined.

(** The input of three spaces is empty once trimmed, and [TryParse]
    returns [ErrInvalidFormat] for it, not [ErrEmpty]. *)
Lemma TryParse_spaces_not_ErrEmpty :
  spec_trimmed "   " = "" /\
  TryParse "   " = (zeroVersion, Some ErrInvalidFormat) /\
  snd (TryParse "   ") <> Some ErrEmpty.
Proof.
  split; [reflexivity|]. split; [reflexivity|]. vm_compute. discriminate.
Qed.

(** C3, as the code has it: for every text [s] of the grammar whose major,
    minor and patch numbers fit 64 bits, [s] is matched by [re] and has no
    [v] in front, [TryParse s] succeeds with the version made of the parts
    of [s], and [String] of that version is [s]. *)
Theorem TryParse_String_roundtrip s major minor patch pre build :
  semver_parts s major minor patch pre build ->
  (decimal major <= strconv.maxUint64)%N ->
  (decimal minor <= strconv.maxUint64)%N ->
  (decimal patch <= strconv.maxUint64)%N ->
  MatchString re s = true /\
  strings.HasPrefix s "v" = false /\
  TryParse s
  = (mkVersion (decimal major) (decimal minor) (decimal patch) pre build, None)
  /\ String_ (fst (TryParse s)) = s.
Proof.
  intros H H1 H2 H3.
  split; [apply MatchString_re_iff; unfold semver_text; eauto 6|].
  split; [now apply (semver_parts_no_v _ _ _ _ _ _ H)|].
  assert (E : TryParse s
              = (mkVersion (decimal major) (decimal minor) (decimal patch)
                   pre build, None)).
  { pose proof H as H'. rewrite <- (semver_parts_no_prefix _ _ _ _ _ _ H) in H'.
    rewrite (TryParse_parts _ _ _ _ _ _ H').
    apply N.leb_le in H1, H2, H3. now rewrite H1, H2, H3. }
  split; [exact E|]. rewrite E. simpl fst.
  destruct H as (-> & Hmajor & Hminor & Hpatch & _).
  now apply String_assemble.
Qed.

Lemma TryParse_String_roundtrip_witness :
  MatchString re "1.2.3-beta+exp.sha.5114f85" = true /\
  strings.HasPrefix "1.2.3-beta+exp.sha.5114f85" "v" = false /\
  TryParse "1.2.3-beta+exp.sha.5114f85"
  = (mkVersion (decimal "1") (decimal "2") (decimal "3") "beta"
       "exp.sha.5114f85", None)
  /\ String_ (fst (TryParse "1.2.3-beta+exp.sha.5114f85"))
     = "1.2.3-beta+exp.sha.5114f85".
Proof.
  apply (TryParse_String_roundtrip "1.2.3-beta+exp.sha.5114f85"
           "1" "2" "3" "beta" "exp.sha.5114f85").
  - unfold semver_parts. repeat split; auto.
    + right. exists ["beta"]. split; [discriminate | split; reflexivity].
    + right. exists ["exp"; "sha"; "5114f85"].
      split; [discriminate | split; reflexivity].
  - vm_compute. discriminate.
  - vm_compute. discriminate.
  - vm_compute. discriminate.
Defined.

(** The text ["18446744073709551616.0.0"] is in the grammar and has no [v]
    in front, and [TryParse] fails on it. *)
Lemma TryParse_roundtrip_fails_on_overflow :
  MatchString re "18446744073709551616.0.0" = true /\
  semver_text "18446744073709551616.0.0" /\
  strings.HasPrefix "18446744073709551616.0.0" "v" = false /\
  snd (TryParse "18446744073709551616.0.0") <> None.
Proof.
  split; [reflexivity|]. split; [|split; [reflexivity|vm_compute; discriminate]].
  exists "18446744073709551616", "0", "0", "", "".
  unfold semver_parts. repeat split; auto.
Qed.

(** C4: [Compare] is a total order that looks at major, minor, patch and
    pre-release only: a version compares equal to itself, swapping the
    arguments negates the result, "greater" is transitive, the result is
    [0] exactly when the four fields agree, and changing the build alone
    gives a version that compares equal. *)
Theorem Compare_total_order a b c :
  Compare a a = 0%Z /\
  Compare a b = (- Compare b a)%Z /\
  (Compare a b = 1%Z -> Compare b c = 1%Z -> Compare a c = 1%Z) /\
  (Compare a b = 0%Z <->
   Major a = Major b /\ Minor a = Minor b /\ Patch a = Patch b
   /\ PreRelease a = PreRelease b) /\
  (forall build,
      Compare a (mkVersion (Major a) (Minor a) (Patch a) (PreRelease a) build)
      = 0%Z).
Proof.
  rewrite !Compare_key.
  split; [|split; [|split; [|split; [split|]]]].
  - now rewrite cmp_refl.
  - now rewrite (cmp_antisym (key a) (key b)), sign_opp.
  - intros H1 H2.
    apply (sign_inj _ Gt) in H1. apply (sign_inj _ Gt) in H2.
    now rewrite (cmp_trans _ _ _ H1 H2).
  - intros H. apply (sign_inj _ Eq), cmp_eq in H. now apply key_eq in H.
  - intros H. apply key_eq in H. rewrite H. now rewrite cmp_refl.
  - intros build. rewrite Compare_key. unfold key. simpl. now rewrite cmp_refl.
Qed.

Lemma Compare_total_order_witness :
  Compare (mkVersion 2 0 0 "" "") (mkVersion 1 9 9 "beta" "001") = 1%Z.
Proof.
  apply (proj1 (proj2 (proj2
           (Compare_total_order (mkVersion 2 0 0 "" "")
              (mkVersion 1 9 9 "" "") (mkVersion 1 9 9 "beta" "001")))));
    reflexivity.
Defined.

(** C5: of two versions equal on major, minor and patch of which exactly
    one has a pre-release, the one without it is the greater, whichever
    side it is on; and [Compare(Parse("1.0.0"), Parse("1.0.0-alpha"))] is
    [1]. *)
Theorem Compare_release_above_prerelease a b :
  (Major a = Major b -> Minor a = Minor b -> Patch a = Patch b ->
   PreRelease a = "" -> PreRelease b <> "" ->
   Compare a b = 1%Z /\ Compare b a = (-1)%Z) /\
  (exists x y,
      Parse "1.0.0" = Returns x /\ Parse "1.0.0-alpha" = Returns y /\
      Compare x y = 1%Z).
Proof.
  split.
  - intros E1 E2 E3 Ea Eb. apply String.eqb_neq in Eb.
    unfold Compare. rewrite E1, E2, E3, Ea, Eb, !N.eqb_refl. simpl. auto.
  - eexists. eexists. repeat split.
Qed.

Lemma Compare_release_above_prerelease_witness :
  Compare (mkVersion 1 2 3 "" "") (mkVersion 1 2 3 "rc.1" "") = 1%Z /\
  Compare (mkVersion 1 2 3 "rc.1" "") (mkVersion 1 2 3 "" "") = (-1)%Z.
Proof.
  apply (proj1 (Compare_release_above_prerelease
                  (mkVersion 1 2 3 "" "") (mkVersion 1 2 3 "rc.1" "")));
    try reflexivity.
  discriminate.
Defined.

(** C6: when [TryParse s] succeeds and [s] does not start with [v],
    [TryParse] of [s] with a [v] in front succeeds with the same version
    and the same nil error. *)
Theorem TryParse_v_prefix s v :
  TryParse s = (v, None) ->
  strings.HasPrefix s "v" = false ->
  TryParse ("v" ++ s) = (v, None).
Proof.
  intros H Hp. destruct s as [|c s]; [discriminate|].
  assert (Hc : c <> "v"%char).
  { intros ->. unfold strings.HasPrefix in Hp. cbn [String.prefix] in Hp.
    destruct (ascii_dec "v" "v") as [_|N]; [|contradiction].
    destruct s; discriminate. }
  rewrite <- H. unfold TryParse. cbn [append String.eqb].
  rewrite TrimPrefix_v_cons, (TrimPrefix_v_other _ _ Hc).
  reflexivity.
Qed.

Lemma TryParse_v_prefix_witness :
  TryParse ("v" ++ "1.2.3-alpha+build.45")
  = (mkVersion 1 2 3 "alpha" "build.45", None).
Proof.
  apply (TryParse_v_prefix "1.2.3-alpha+build.45"); reflexivity.
Defined.

(** C7: whenever [TryParse] returns an error, the version it returns with
    it is the zero [Version]. *)
Theorem TryParse_error_zero input v e :
  TryParse input = (v, Some e) -> v = zeroVersion.
Proof.
  unfold TryParse.
  destruct (String.eqb input ""); [now intros [= <- _]|].
  destruct (negb (MatchString re (strings.TrimPrefix input "v")));
    [now intros [= <- _]|].
  destruct (Nat.ltb _ 6); [now intros [= <- _]|].
  destruct (strconv.ParseUint _) as [major [e1|]]; [now intros [= <- _]|].
  destruct (strconv.ParseUint _) as [minor [e2|]]; [now intros [= <- _]|].
  destruct (strconv.ParseUint _) as [patch [e3|]]; [now intros [= <- _]|].
  discriminate.
Qed.

Lemma TryParse_error_zero_witness :
  fst (TryParse "1.2.x") = zeroVersion.
Proof.
  apply (TryParse_error_zero "1.2.x" _ ErrInvalidFormat). reflexivity.
Defined.

(** C8: ["1.2"], ["invalid-version"] and ["1.2.3.4"] get
    [ErrInvalidFormat], and so does every non-empty input whose text after
    the optional [v] is not matched in full by [re], which is to say is
    not a text of the grammar; among them the texts with an empty
    pre-release or build identifier (a trailing dot, a double dot, nothing
    after the [-] or the [+]). *)
Theorem TryParse_rejects input :
  (TryParse "1.2" = (zeroVersion, Some ErrInvalidFormat) /\
   TryParse "invalid-version" = (zeroVersion, Some ErrInvalidFormat) /\
   TryParse "1.2.3.4" = (zeroVersion, Some ErrInvalidFormat)) /\
  (input <> "" ->
   MatchString re (strings.TrimPrefix input "v") = false ->
   TryParse input = (zeroVersion, Some ErrInvalidFormat)) /\
  (input <> "" ->
   ~ semver_text (strings.TrimPrefix input "v") ->
   TryParse input = (zeroVersion, Some ErrInvalidFormat)) /\
  Forall (fun bad => TryParse bad = (zeroVersion, Some ErrInvalidFormat))
    ["1.0.0-alpha."; "1.0.0-alpha..1"; "1.0.0-.alpha"; "1.0.0-";
     "1.0.0+build."; "1.0.0+a..b"; "1.0.0+.b"; "1.0.0+";
     "1.0.0-alpha+"; "1.0.0 "; " 1.0.0"; "01.0.0"; "1.0.0-01"; "1.0.0+a_b"].
Proof.
  split; [repeat split|]. split; [|split].
  - apply TryParse_no_match.
  - intros Hne Hs. apply TryParse_no_match; [exact Hne|].
    destruct (MatchString re _) eqn:E; [|reflexivity].
    now apply MatchString_re_iff in E.
  - repeat constructor.
Qed.

Lemma TryParse_rejects_witness :
  TryParse "v1.2.3.4" = (zeroVersion, Some ErrInvalidFormat).
Proof.
  apply (proj1 (proj2 (TryParse_rejects "v1.2.3.4")));
    [discriminate | reflexivity].
Defined.

(** C9: the input ["v"] is not empty for [TryParse]: the test for the
    empty input comes before the prefix is stripped, so the empty text
    left after stripping gets [ErrInvalidFormat], not [ErrEmpty]. *)
Theorem TryParse_v_alone :
  TryParse "v" = (zeroVersion, Some ErrInvalidFormat) /\
  snd (TryParse "v") <> Some ErrEmpty /\
  strings.TrimPrefix "v" "v" = "".
Proof.
  split; [reflexivity|]. split; [vm_compute; discriminate | reflexivity].
Qed.

(** C10: one lower-case [v] is the only prefix: for every [s] that
    [TryParse] accepts and that has no prefix, [TryParse] of [s] after an
    upper-case [V] and of [s] after two [v] both return
    [ErrInvalidFormat] (whatever [s] is, by [TryParse_bad_head] and
    [TryParse_v_bad_head]). *)
Theorem TryParse_other_prefixes s v :
  TryParse s = (v, None) ->
  strings.HasPrefix s "v" = false ->
  TryParse ("V" ++ s) = (zeroVersion, Some ErrInvalidFormat) /\
  TryParse ("vv" ++ s) = (zeroVersion, Some ErrInvalidFormat).
Proof.
  intros _ _. split.
  - apply TryParse_bad_head; [reflexivity | discriminate].
  - apply TryParse_v_bad_head. reflexivity.
Qed.

Lemma TryParse_other_prefixes_witness :
  TryParse ("V" ++ "2.1.3") = (zeroVersion, Some ErrInvalidFormat) /\
  TryParse ("vv" ++ "2.1.3") = (zeroVersion, Some ErrInvalidFormat).
Proof.
  apply (TryParse_other_prefixes "2.1.3" (mkVersion 2 1 3 "" "")); reflexivity.
Defined.

(** * Further properties of the package *)

(** ** Printing numbers *)

Lemma nzhead_head u :
  match Decimal.nzhead u with Decimal.D0 _ => False | _ => True end.
Proof. induction u; simpl; auto. Qed.

Lemma all_digits_string_of_uint u :
  all_digits (NilEmpty.string_of_uint u) = true.
Proof. induction u; simpl; try reflexivity; exact IHu. Qed.

Lemma numeric_text_unorm u :
  numeric_text (NilEmpty.string_of_uint (Decimal.unorm u)) = true.
Proof.
  unfold Decimal.unorm. pose proof (nzhead_head u) as Hh.
  destruct (Decimal.nzhead u) as [|d|d|d|d|d|d|d|d|d|d];
    try contradiction; try reflexivity;
    simpl; apply all_digits_string_of_uint.
Qed.

(** What [%d] prints is a number of the grammar. *)
Lemma FormatUint_numeric n : numeric_text (strconv.FormatUint n) = true.
Proof.
  unfold strconv.FormatUint.
  rewrite <- (DecimalN.Unsigned.of_to n) at 1.
  rewrite DecimalN.Unsigned.to_of. apply numeric_text_unorm.
Qed.

(** Reading what [%d] prints gives the number back. *)
Lemma decimal_FormatUint n : decimal (strconv.FormatUint n) = n.
Proof.
  unfold strconv.FormatUint.
  rewrite (decimal_of_uint _ (N.to_uint n)).
  - apply DecimalN.Unsigned.of_to.
  - apply all_digits_string_of_uint.
  - apply NilEmpty.usu.
Qed.

(** [String] lays the fields out as [assemble] does, whatever they are. *)
Lemma String_layout v :
  String_ v
  = assemble (strconv.FormatUint (Major v)) (strconv.FormatUint (Minor v))
      (strconv.FormatUint (Patch v)) (PreRelease v) (Build v).
Proof.
  unfold String_, assemble.
  destruct (String.eqb (PreRelease v) ""); destruct (String.eqb (Build v) "");
    simpl; rewrite ?append_assoc; simpl; rewrite ?append_assoc; simpl;
    rewrite ?append_assoc; simpl; rewrite ?append_nil_r; reflexivity.
Qed.

Lemma valid_Version_parts v :
  valid_Version v ->
  semver_parts (String_ v)
    (strconv.FormatUint (Major v)) (strconv.FormatUint (Minor v))
    (strconv.FormatUint (Patch v)) (PreRelease v) (Build v).
Proof.
  intros (_ & _ & _ & Hpre & Hbuild). unfold semver_parts.
  rewrite String_layout, !FormatUint_numeric. auto 6.
Qed.

(** ** Successful calls of [TryParse] *)

(** A successful call read a text of the grammar whose numbers fit 64
    bits, and returns its parts. *)
Lemma TryParse_success input v :
  TryParse input = (v, None) ->
  exists major minor patch pre build,
    semver_parts (strings.TrimPrefix input "v") major minor patch pre build /\
    (decimal major <= strconv.maxUint64)%N /\
    (decimal minor <= strconv.maxUint64)%N /\
    (decimal patch <= strconv.maxUint64)%N /\
    v = mkVersion (decimal major) (decimal minor) (decimal patch) pre build.
Proof.
  intros H.
  assert (Hne : input <> "") by (intros ->; discriminate).
  destruct (MatchString re (strings.TrimPrefix input "v")) eqn:Hm.
  - apply MatchString_re_iff in Hm as (m1 & m2 & m3 & p & b & Hp).
    rewrite (TryParse_parts _ _ _ _ _ _ Hp) in H.
    destruct (N.leb_spec (decimal m1) strconv.maxUint64); [|discriminate].
    destruct (N.leb_spec (decimal m2) strconv.maxUint64); [|discriminate].
    destruct (N.leb_spec (decimal m3) strconv.maxUint64); [|discriminate].
    injection H as <-. exists m1, m2, m3, p, b. auto 6.
  - rewrite (TryParse_no_match _ Hne Hm) in H. discriminate.
Qed.

Lemma TryParse_of_parts s major minor patch pre build :
  semver_parts s major minor patch pre build ->
  (decimal major <= strconv.maxUint64)%N ->
  (decimal minor <= strconv.maxUint64)%N ->
  (decimal patch <= strconv.maxUint64)%N ->
  TryParse s
  = (mkVersion (decimal major) (decimal minor) (decimal patch) pre build, None)
  /\ TryParse (String "v" s)
     = (mkVersion (decimal major) (decimal minor) (decimal patch) pre build,
        None).
Proof.
  intros H H1 H2 H3. apply N.leb_le in H1, H2, H3. split.
  - pose proof H as H'. rewrite <- (semver_parts_no_prefix _ _ _ _ _ _ H) in H'.
    rewrite (TryParse_parts _ _ _ _ _ _ H'). now rewrite H1, H2, H3.
  - pose proof H as H'. rewrite <- (TrimPrefix_v_cons s) in H'.
    rewrite (TryParse_parts _ _ _ _ _ _ H'). now rewrite H1, H2, H3.
Qed.

(** X1: the errors of [TryParse].  An error is [ErrEmpty] for the empty
    input, [ErrInvalidFormat] for a non-empty input that [re] does not
    match, or, for a matched input, [ErrBase] joined to the range error of
    [ParseUint] for the first of the input's major, minor and patch
    numbers that exceeds 64 bits; never a syntax error of [ParseUint].  In
    every case [errors.Is(err, ErrBase)] holds. *)
Theorem TryParse_error_kinds input v e :
  TryParse input = (v, Some e) ->
  errors.Is e ErrBase = true /\
  ((e = ErrEmpty /\ input = "") \/
   (e = ErrInvalidFormat /\ input <> "" /\
    MatchString re (strings.TrimPrefix input "v") = false) \/
   (exists major minor patch pre build num,
       semver_parts (strings.TrimPrefix input "v") major minor patch pre build /\
       MatchString re (strings.TrimPrefix input "v") = true /\
       e = errors.Join ErrBase (strconv.rangeError "ParseUint" num) /\
       numeric_text num = true /\
       (strconv.maxUint64 < decimal num)%N /\
       (num = major \/
        (num = minor /\ (decimal major <= strconv.maxUint64)%N) \/
        (num = patch /\ (decimal major <= strconv.maxUint64)%N
         /\ (decimal minor <= strconv.maxUint64)%N)))).
Proof.
  intros H. destruct input as [|c s].
  - injection H as _ <-. split; [reflexivity | auto].
  - destruct (MatchString re (strings.TrimPrefix (String c s) "v")) eqn:Hm.
    + pose proof Hm as Hm'.
      apply MatchString_re_iff in Hm' as (m1 & m2 & m3 & p & b & Hp).
      pose proof Hp as (_ & Hn1 & Hn2 & Hn3 & _).
      rewrite (TryParse_parts _ _ _ _ _ _ Hp) in H.
      destruct (N.leb_spec (decimal m1) strconv.maxUint64) as [L1|L1].
      * destruct (N.leb_spec (decimal m2) strconv.maxUint64) as [L2|L2].
        -- destruct (N.leb_spec (decimal m3) strconv.maxUint64) as [L3|L3];
             [discriminate|].
           injection H as _ <-. split; [reflexivity|]. right. right.
           exists m1, m2, m3, p, b, m3.
           split; [exact Hp|]. split; [reflexivity|]. split; [reflexivity|].
           split; [assumption|]. split; [assumption|].
           right. right. auto.
        -- injection H as _ <-. split; [reflexivity|]. right. right.
           exists m1, m2, m3, p, b, m2.
           split; [exact Hp|]. split; [reflexivity|]. split; [reflexivity|].
           split; [assumption|]. split; [assumption|].
           right. left. auto.
      * injection H as _ <-. split; [reflexivity|]. right. right.
        exists m1, m2, m3, p, b, m1.
        split; [exact Hp|]. split; [reflexivity|]. split; [reflexivity|].
        split; [assumption|]. split; [assumption|].
        left. reflexivity.
    + rewrite TryParse_no_match in H by (discriminate || exact Hm).
      injection H as _ <-. split; [reflexivity|].
      right. left. split; [reflexivity|]. split; [discriminate | reflexivity].
Qed.

Lemma TryParse_error_kinds_witness :
  errors.Is (errors.Join ErrBase
               (strconv.rangeError "ParseUint" "99999999999999999999"))
    ErrBase = true /\
  ((errors.Join ErrBase (strconv.rangeError "ParseUint" "99999999999999999999")
    = ErrEmpty /\ "1.99999999999999999999.0" = "") \/
   (errors.Join ErrBase (strconv.rangeError "ParseUint" "99999999999999999999")
    = ErrInvalidFormat /\ "1.99999999999999999999.0" <> "" /\
    MatchString re (strings.TrimPrefix "1.99999999999999999999.0" "v") = false)
   \/
   (exists major minor patch pre build num,
       semver_parts (strings.TrimPrefix "1.99999999999999999999.0" "v")
         major minor patch pre build /\
       MatchString re (strings.TrimPrefix "1.99999999999999999999.0" "v")
       = true /\
       errors.Join ErrBase
         (strconv.rangeError "ParseUint" "99999999999999999999")
       = errors.Join ErrBase (strconv.rangeError "ParseUint" num) /\
       numeric_text num = true /\
       (strconv.maxUint64 < decimal num)%N /\
       (num = major \/
        (num = minor /\ (decimal major <= strconv.maxUint64)%N) \/
        (num = patch /\ (decimal major <= strconv.maxUint64)%N
         /\ (decimal minor <= strconv.maxUint64)%N)))).
Proof.
  apply (TryParse_error_kinds "1.99999999999999999999.0" zeroVersion).
  reflexivity.
Defined.

(** X2: the inputs [TryParse] accepts and what it returns for them.  The
    call succeeds with [v] exactly when the input, after one optional
    leading [v], is a text of the grammar whose three numbers fit 64 bits,
    and [v] holds the values of the numbers and the pre-release and build
    texts as written. *)
Theorem TryParse_success_iff input v :
  TryParse input = (v, None) <->
  exists major minor patch pre build,
    semver_parts (strings.TrimPrefix input "v") major minor patch pre build /\
    (decimal major <= strconv.maxUint64)%N /\
    (decimal minor <= strconv.maxUint64)%N /\
    (decimal patch <= strconv.maxUint64)%N /\
    v = mkVersion (decimal major) (decimal minor) (decimal patch) pre build.
Proof.
  split; [apply TryParse_success|].
  intros (m1 & m2 & m3 & p & b & Hp & H1 & H2 & H3 & ->).
  rewrite (TryParse_parts _ _ _ _ _ _ Hp).
  apply N.leb_le in H1, H2, H3. now rewrite H1, H2, H3.
Qed.

Lemma TryParse_success_iff_witness :
  TryParse "v10.20.30-rc.1+build.7" = (mkVersion 10 20 30 "rc.1" "build.7", None).
Proof.
  apply (proj2 (TryParse_success_iff "v10.20.30-rc.1+build.7"
                  (mkVersion 10 20 30 "rc.1" "build.7"))).
  exists "10", "20", "30", "rc.1", "build.7".
  split.
  { unfold semver_parts. repeat split; auto.
    - right. exists ["rc"; "1"]. split; [discriminate | split; reflexivity].
    - right. exists ["build"; "7"]. split; [discriminate | split; reflexivity]. }
  repeat split; vm_compute; discriminate.
Defined.

Lemma valid_of_success input v :
  TryParse input = (v, None) -> valid_Version v.
Proof.
  intros H.
  apply TryParse_success in H
    as (m1 & m2 & m3 & p & b & Hp & H1 & H2 & H3 & ->).
  destruct Hp as (_ & _ & _ & _ & Hpre & Hbuild).
  unfold valid_Version. simpl. auto 6.
Qed.

(** X3: a version returned by a successful [TryParse] is valid: its
    numbers are within [uint64], its pre-release is empty or a dotted
    sequence of pre-release identifiers (none empty, no numeric one with a
    leading zero), its build is empty or a dotted sequence of non-empty
    build identifiers. *)
Theorem TryParse_valid input v :
  TryParse input = (v, None) -> valid_Version v.
Proof.
  intros H.
  apply TryParse_success in H
    as (m1 & m2 & m3 & p & b & Hp & H1 & H2 & H3 & ->).
  destruct Hp as (_ & _ & _ & _ & Hpre & Hbuild).
  unfold valid_Version. cbn [Major Minor Patch PreRelease Build].
  repeat split; assumption.
Qed.

Lemma TryParse_valid_witness :
  valid_Version (mkVersion 1 2 3 "beta" "exp.sha.5114f85").
Proof.
  apply (TryParse_valid "1.2.3-beta+exp.sha.5114f85"). reflexivity.
Defined.

(** X4: rendering normalises the prefix.  For every input [TryParse]
    accepts, with or without the leading [v], [String] of the result is
    the input without the prefix and [Version] of the result is that text
    after a [v]. *)
Theorem String_of_TryParse input v :
  TryParse input = (v, None) ->
  String_ v = strings.TrimPrefix input "v" /\
  Version_ v = "v" ++ strings.TrimPrefix input "v".
Proof.
  intros H.
  apply TryParse_success in H
    as (m1 & m2 & m3 & p & b & Hp & H1 & H2 & H3 & ->).
  pose proof Hp as (E & Hn1 & Hn2 & Hn3 & _).
  unfold Version_. rewrite String_assemble by assumption.
  now rewrite E.
Qed.

Lemma String_of_TryParse_witness :
  String_ (mkVersion 2 1 3 "" "") = strings.TrimPrefix "v2.1.3" "v" /\
  Version_ (mkVersion 2 1 3 "" "") = "v" ++ strings.TrimPrefix "v2.1.3" "v".
Proof.
  apply (String_of_TryParse "v2.1.3"). reflexivity.
Defined.

Lemma parse_rendered v :
  valid_Version v ->
  TryParse (String_ v) = (v, None) /\ TryParse (Version_ v) = (v, None).
Proof.
  intros Hv. pose proof Hv as (H1 & H2 & H3 & _).
  pose proof (valid_Version_parts v Hv) as Hp.
  unfold Version_. change ("v" ++ String_ v) with (String "v" (String_ v)).
  destruct (TryParse_of_parts _ _ _ _ _ _ Hp) as [E1 E2];
    rewrite ?decimal_FormatUint; try assumption.
  rewrite E1, E2, !decimal_FormatUint. now destruct v.
Qed.

(** X5: parsing what was rendered.  For every valid version [v],
    [TryParse(v.String())] and [TryParse(v.Version())] both succeed and
    return [v] itself. *)
Theorem TryParse_of_String v :
  valid_Version v ->
  TryParse (String_ v) = (v, None) /\ TryParse (Version_ v) = (v, None).
Proof.
  intros Hv. pose proof Hv as (H1 & H2 & H3 & _).
  pose proof (valid_Version_parts v Hv) as Hp.
  apply TryParse_of_parts in Hp as [E1 E2];
    rewrite ?decimal_FormatUint; try assumption.
  rewrite !decimal_FormatUint in E1, E2.
  unfold Version_. change ("v" ++ String_ v) with (String "v" (String_ v)).
  rewrite E1, E2. now destruct v.
Qed.

Lemma TryParse_of_String_witness :
  TryParse (String_ (mkVersion 18446744073709551615 0 7 "0.x-y.12" "007"))
  = (mkVersion 18446744073709551615 0 7 "0.x-y.12" "007", None) /\
  TryParse (Version_ (mkVersion 18446744073709551615 0 7 "0.x-y.12" "007"))
  = (mkVersion 18446744073709551615 0 7 "0.x-y.12" "007", None).
Proof.
  apply (TryParse_of_String (mkVersion 18446744073709551615 0 7 "0.x-y.12" "007")).
  unfold valid_Version. simpl.
  split; [vm_compute; discriminate|].
  split; [vm_compute; discriminate|].
  split; [vm_compute; discriminate|].
  split.
  - right. exists ["0"; "x-y"; "12"]. split; [discriminate | split; reflexivity].
  - right. exists ["007"]. split; [discriminate | split; reflexivity].
Defined.

(** X6: two valid versions with the same [String], or the same [Version]
    tag, are the same version, build included. *)
Theorem String_injective a b :
  valid_Version a -> valid_Version b ->
  (String_ a = String_ b -> a = b) /\ (Version_ a = Version_ b -> a = b).
Proof.
  intros Ha Hb.
  destruct (parse_rendered a Ha) as [Ea _].
  destruct (parse_rendered b Hb) as [Eb _].
  assert (Hs : String_ a = String_ b -> a = b).
  { intros E. rewrite E in Ea. rewrite Ea in Eb. now injection Eb. }
  split; [exact Hs|].
  unfold Version_. intros E. apply Hs. now injection E.
Qed.

Lemma String_injective_witness :
  (String_ (mkVersion 1 0 0 "" "a") = String_ (mkVersion 1 0 0 "" "a") ->
   mkVersion 1 0 0 "" "a" = mkVersion 1 0 0 "" "a") /\
  (Version_ (mkVersion 1 0 0 "" "a") = Version_ (mkVersion 1 0 0 "" "a") ->
   mkVersion 1 0 0 "" "a" = mkVersion 1 0 0 "" "a").
Proof.
  apply (String_injective (mkVersion 1 0 0 "" "a") (mkVersion 1 0 0 "" "a"));
    apply (valid_of_success "1.0.0+a"); reflexivity.
Defined.

(** ** [Parse] *)

(** X7: [Parse] returns only valid versions, which it reads back from
    their own renderings, and panics only with errors for which
    [errors.Is(err, ErrBase)] holds, the version [TryParse] gave with the
    error being the zero [Version]. *)
Theorem Parse_outcomes input :
  (forall v, Parse input = Returns v ->
             valid_Version v /\
             Parse (String_ v) = Returns v /\ Parse (Version_ v) = Returns v) /\
  (forall e, Parse input = Panics e ->
             errors.Is e ErrBase = true /\ TryParse input = (zeroVersion, Some e)).
Proof.
  unfold Parse. split.
  - intros v H. destruct (TryParse input) as [v' [e|]] eqn:E; [discriminate|].
    injection H as ->. pose proof (valid_of_success _ _ E) as Hv.
    destruct (parse_rendered v Hv) as [E1 E2].
    now rewrite E1, E2.
  - intros e H. destruct (TryParse input) as [v' [e'|]] eqn:E; [|discriminate].
    injection H as ->.
    destruct input as [|c s]; [now injection E as <- <-|].
    destruct (TryParse_cases (String c s)) as [E'|[[num E']|[v E']]];
      [discriminate| | |]; rewrite E' in E;
      [injection E as <- <-; split; reflexivity
      |injection E as <- <-; split; reflexivity
      |discriminate].
Qed.

Lemma Parse_outcomes_witness :
  valid_Version (mkVersion 1 2 3 "alpha" "build.45") /\
  Parse (String_ (mkVersion 1 2 3 "alpha" "build.45"))
  = Returns (mkVersion 1 2 3 "alpha" "build.45") /\
  Parse (Version_ (mkVersion 1 2 3 "alpha" "build.45"))
  = Returns (mkVersion 1 2 3 "alpha" "build.45").
Proof.
  apply (proj1 (Parse_outcomes "v1.2.3-alpha+build.45")). reflexivity.
Defined.

(** ** The prefix *)

(** X8: for a non-empty [s] that does not start with [v], [TryParse] of
    [s] after a [v] returns what [TryParse(s)] returns, version and error
    alike. *)
Theorem TryParse_v_prefix_any s :
  s <> "" -> strings.HasPrefix s "v" = false ->
  TryParse ("v" ++ s) = TryParse s.
Proof.
  intros Hne Hp. destruct s as [|c s]; [contradiction|].
  assert (Hc : c <> "v"%char).
  { intros ->. unfold strings.HasPrefix in Hp. cbn [String.prefix] in Hp.
    destruct (ascii_dec "v" "v") as [_|N]; [|contradiction].
    destruct s; discriminate. }
  unfold TryParse. cbn [append String.eqb].
  now rewrite TrimPrefix_v_cons, (TrimPrefix_v_other _ _ Hc).
Qed.

Lemma TryParse_v_prefix_any_witness :
  TryParse ("v" ++ "1.2.3.4") = TryParse "1.2.3.4".
Proof.
  apply (TryParse_v_prefix_any "1.2.3.4"); [discriminate | reflexivity].
Defined.

(** ** What [TryParse] rejects *)

Lemma is_digit_semver_byte c :
  strconv.is_digit c = true -> is_semver_byte c = true.
Proof.
  intros H. unfold is_semver_byte, is_ident_or_dot.
  now rewrite (digit_is_alnum _ H).
Qed.

Lemma ident_or_dot_semver_byte c :
  is_ident_or_dot c = true -> is_semver_byte c = true.
Proof. intros H. unfold is_semver_byte. now rewrite H. Qed.

Lemma numeric_text_bytes d :
  numeric_text d = true -> all_chars is_semver_byte d = true.
Proof.
  intros H. apply numeric_text_digits in H.
  revert H. apply all_chars_impl, is_digit_semver_byte.
Qed.

Lemma optional_part_bytes (text : string -> bool) (sep : ascii) t :
  (forall d, text d = true -> all_chars is_alnum_hyphen d = true) ->
  is_semver_byte sep = true ->
  t = "" \/ dotted_text text t ->
  all_chars is_semver_byte (if String.eqb t "" then "" else String sep t) = true.
Proof.
  intros Htext Hsep [->|Ht]; [reflexivity|].
  destruct (String.eqb t ""); [reflexivity|]. simpl. rewrite Hsep. simpl.
  apply (all_chars_impl is_ident_or_dot); [apply ident_or_dot_semver_byte|].
  now apply (dotted_text_chars text).
Qed.

(** A text of the grammar is made of digits, letters, hyphens, dots and
    plus signs. *)
Lemma semver_parts_bytes s major minor patch pre build :
  semver_parts s major minor patch pre build ->
  all_chars is_semver_byte s = true.
Proof.
  intros (-> & H1 & H2 & H3 & Hpre & Hbuild). unfold assemble.
  rewrite !all_chars_append. cbn [all_chars].
  rewrite !numeric_text_bytes by assumption.
  change (is_semver_byte ".") with true.
  change ("-" ++ pre) with (String "-" pre).
  change ("+" ++ build) with (String "+" build).
  rewrite (optional_part_bytes prerelease_ident_text "-" pre
             prerelease_ident_text_alnum eq_refl Hpre).
  rewrite (optional_part_bytes build_ident_text "+" build
             build_ident_text_alnum eq_refl Hbuild).
  reflexivity.
Qed.

(** X9: a non-empty input that, after the optional [v], holds a byte other
    than an ASCII digit, an ASCII letter, a hyphen, a dot or a plus sign
    (white space, an underscore, a byte of a non-ASCII character) gets
    [ErrInvalidFormat]. *)
Theorem TryParse_foreign_byte input :
  input <> "" ->
  all_chars is_semver_byte (strings.TrimPrefix input "v") = false ->
  TryParse input = (zeroVersion, Some ErrInvalidFormat).
Proof.
  intros Hne Hb. apply TryParse_no_match; [exact Hne|].
  destruct (MatchString re _) eqn:E; [|reflexivity].
  apply MatchString_re_iff in E as (m1 & m2 & m3 & p & b & Hp).
  apply semver_parts_bytes in Hp. congruence.
Qed.

Lemma TryParse_foreign_byte_witness :
  TryParse "1.0.0-alpha_1" = (zeroVersion, Some ErrInvalidFormat).
Proof.
  apply (TryParse_foreign_byte "1.0.0-alpha_1"); [discriminate | reflexivity].
Defined.

(** A number of the grammar followed by a text that does not go on with a
    digit is never [0] followed by a digit. *)
Lemma leading_zero_not_numeric d rest c s :
  numeric_text d = true -> stops strconv.is_digit rest ->
  strconv.is_digit c = true ->
  d ++ rest <> String "0" (String c s).
Proof.
  intros Hd Hrest Hc E. destruct d as [|x d]; [discriminate|].
  simpl in E. injection E as -> E. simpl in Hd.
  apply String.eqb_eq in Hd. subst d. simpl in E. subst rest.
  simpl in Hrest. congruence.
Qed.

Lemma TryParse_digit_head x t :
  strconv.is_digit x = true -> ~ semver_text (String x t) ->
  TryParse (String x t) = (zeroVersion, Some ErrInvalidFormat).
Proof.
  intros Hx Hn. apply TryParse_no_match; [discriminate|].
  rewrite TrimPrefix_v_other by (intros ->; discriminate).
  destruct (MatchString re _) eqn:E; [|reflexivity].
  now apply MatchString_re_iff in E.
Qed.

Lemma numeric_text_head d :
  numeric_text d = true ->
  exists x d', d = String x d' /\ strconv.is_digit x = true.
Proof.
  intros H. destruct d as [|x d]; [discriminate|].
  apply numeric_text_digits in H. rewrite all_digits_cons in H.
  apply andb_prop in H as [Hx _]. eauto.
Qed.

(** X10: a leading zero in a number is rejected.  Whatever follows, an
    input whose major, minor or patch number starts with [0] followed by
    another digit gets [ErrInvalidFormat]. *)
Theorem TryParse_leading_zero major minor c s :
  numeric_text major = true -> numeric_text minor = true ->
  strconv.is_digit c = true ->
  TryParse ("0" ++ String c s) = (zeroVersion, Some ErrInvalidFormat) /\
  TryParse (major ++ "." ++ "0" ++ String c s)
  = (zeroVersion, Some ErrInvalidFormat) /\
  TryParse (major ++ "." ++ minor ++ "." ++ "0" ++ String c s)
  = (zeroVersion, Some ErrInvalidFormat).
Proof.
  intros Hmajor Hminor Hc.
  pose proof (numeric_text_digits _ Hmajor) as Dmajor.
  pose proof (numeric_text_digits _ Hminor) as Dminor.
  destruct (numeric_text_head _ Hmajor) as (x & d' & Ex & Hx).
  split; [|split].
  - apply TryParse_digit_head; [reflexivity|].
    intros (m1 & m2 & m3 & p & b & E & Hn1 & _). unfold assemble in E.
    symmetry in E. revert E.
    apply leading_zero_not_numeric; [exact Hn1 | reflexivity | exact Hc].
  - rewrite Ex. cbn [append]. apply TryParse_digit_head; [exact Hx|].
    change (String x (d' ++ String "." (String "0" (String c s))))
      with (String x d' ++ String "." (String "0" (String c s))).
    rewrite <- Ex.
    intros (m1 & m2 & m3 & p & b & E & Hn1 & Hn2 & _). unfold assemble in E.
    apply split_unique with (f := strconv.is_digit) in E as [_ E];
      try (now apply numeric_text_digits); try reflexivity.
    injection E as E. symmetry in E. revert E.
    apply leading_zero_not_numeric; [exact Hn2 | reflexivity | exact Hc].
  - rewrite Ex. cbn [append]. apply TryParse_digit_head; [exact Hx|].
    change (String x (d' ++ String "." (minor ++ String "." (String "0" (String c s)))))
      with (String x d' ++ String "." (minor ++ String "." (String "0" (String c s)))).
    rewrite <- Ex.
    intros (m1 & m2 & m3 & p & b & E & Hn1 & Hn2 & Hn3 & _).
    unfold assemble in E.
    apply split_unique with (f := strconv.is_digit) in E as [_ E];
      try (now apply numeric_text_digits); try reflexivity.
    injection E as E.
    apply split_unique with (f := strconv.is_digit) in E as [_ E];
      try (now apply numeric_text_digits); try reflexivity.
    injection E as E. symmetry in E. revert E.
    apply leading_zero_not_numeric;
      [exact Hn3 | apply optional_parts_stop | exact Hc].
Qed.

Lemma TryParse_leading_zero_witness :
  TryParse ("0" ++ String "1" ".2.3") = (zeroVersion, Some ErrInvalidFormat) /\
  TryParse ("1" ++ "." ++ "0" ++ String "1" ".3")
  = (zeroVersion, Some ErrInvalidFormat) /\
  TryParse ("1" ++ "." ++ "2" ++ "." ++ "0" ++ String "1" "-rc")
  = (zeroVersion, Some ErrInvalidFormat).
Proof.
  split; [|split].
  - apply (proj1 (TryParse_leading_zero "1" "2" "1" ".2.3" eq_refl eq_refl eq_refl)).
  - apply (proj1 (proj2 (TryParse_leading_zero "1" "2" "1" ".3"
                           eq_refl eq_refl eq_refl))).
  - apply (proj2 (proj2 (TryParse_leading_zero "1" "2" "1" "-rc"
                           eq_refl eq_refl eq_refl))).
Defined.

(** ** [re] and its submatches *)

(** X11: when [re] matches a text, [FindStringSubmatch] returns six
    strings: the text itself and its five parts, which put together with
    their separators give the text back.  The first three are numbers of
    the grammar (non-empty, digits only, no leading zero), so that the
    test on the number of submatches in [TryParse] never fails and
    [ParseUint] returns for each of them its value or a range error,
    never a syntax error. *)
Theorem FindStringSubmatch_re s :
  MatchString re s = true ->
  exists major minor patch pre build,
    FindStringSubmatch re s = [s; major; minor; patch; pre; build] /\
    (List.length (FindStringSubmatch re s) <? 6)%nat = false /\
    s = assemble major minor patch pre build /\
    numeric_text major = true /\ numeric_text minor = true /\
    numeric_text patch = true /\
    forall num, In num [major; minor; patch] ->
      strconv.ParseUint num = (decimal num, None) \/
      strconv.ParseUint num
      = (strconv.maxUint64, Some (strconv.rangeError "ParseUint" num)).
Proof.
  unfold MatchString, FindStringSubmatch.
  destruct (search (String.length s) re s) as [caps|] eqn:E; [|discriminate].
  intros _. apply search_re_parts in E
    as (m1 & m2 & m3 & p & b & (Es & H1 & H2 & H3 & _) & ->).
  exists m1, m2, m3, p, b.
  split; [reflexivity|]. split; [reflexivity|]. split; [exact Es|].
  split; [exact H1|]. split; [exact H2|]. split; [exact H3|].
  intros num Hin.
  assert (Hn : numeric_text num = true).
  { destruct Hin as [<-|[<-|[<-|[]]]]; assumption. }
  rewrite (ParseUint_numeric _ Hn).
  destruct (decimal num <=? strconv.maxUint64)%N; auto.
Qed.

Lemma FindStringSubmatch_re_witness :
  exists major minor patch pre build,
    FindStringSubmatch re "0.0.0+x" = ["0.0.0+x"; major; minor; patch; pre; build]
    /\ (List.length (FindStringSubmatch re "0.0.0+x") <? 6)%nat = false
    /\ "0.0.0+x" = assemble major minor patch pre build /\
    numeric_text major = true /\ numeric_text minor = true /\
    numeric_text patch = true /\
    forall num, In num [major; minor; patch] ->
      strconv.ParseUint num = (decimal num, None) \/
      strconv.ParseUint num
      = (strconv.maxUint64, Some (strconv.rangeError "ParseUint" num)).
Proof.
  apply (FindStringSubmatch_re "0.0.0+x"). reflexivity.
Defined.

(** ** More on [Compare] *)



Lemma string_compare_prefix p c r : String.compare p (p ++ String c r) = Lt.
Proof.
  induction p as [|x p IH]; simpl; [reflexivity|].
  unfold Ascii.compare. now rewrite N.compare_refl.
Qed.

(** X13: of two versions equal on major, minor and patch, the one whose
    non-empty pre-release is a proper prefix of the other's is the lower
    (["alpha"] is below ["alpha.1"]). *)
Theorem Compare_prerelease_prefix a b c r :
  Major a = Major b -> Minor a = Minor b -> Patch a = Patch b ->
  PreRelease a <> "" -> PreRelease b = PreRelease a ++ String c r ->
  Compare a b = (-1)%Z /\ Compare b a = 1%Z.
Proof.
  intros E1 E2 E3 Hne Eb.
  assert (Hab : key_compare (key a) (key b) = Lt).
  { unfold key_compare, key, lexc, lex, pre_compare. simpl.
    rewrite E1, E2, E3, Eb, !N.compare_refl, (eqb_nonempty _ Hne).
    replace (String.eqb (PreRelease a ++ String c r) "") with false
      by (now destruct (PreRelease a)).
    apply string_compare_prefix. }
  rewrite !Compare_key, (cmp_antisym (key b) (key a)), Hab. auto.
Qed.

Lemma Compare_prerelease_prefix_witness :
  Compare (mkVersion 1 0 0 "alpha" "") (mkVersion 1 0 0 "alpha.1" "") = (-1)%Z /\
  Compare (mkVersion 1 0 0 "alpha.1" "") (mkVersion 1 0 0 "alpha" "") = 1%Z.
Proof.
  apply (Compare_prerelease_prefix (mkVersion 1 0 0 "alpha" "")
           (mkVersion 1 0 0 "alpha.1" "") "." "1");
    try reflexivity.
  discriminate.
Defined.


